(** * Activity report command (app/dashboard/management/commands/activity_report.py)

    A shallow embedding of the Django management command that gathers
    bounties and tips of a date range, merges them by creation time, renders
    them as CSV, uploads the document and mails a link to it.

    Python strings are [string], datetimes are integers (a count of
    microseconds, so that Python's ordering of datetimes is [Z.le]), numeric
    amounts are rationals that are only carried through, and the effects of
    the command (console writes, store queries, uploads, mails, exceptions)
    are threaded through a state-and-exception monad whose state survives an
    exception. *)

From Stdlib Require Import List String Ascii ZArith QArith Bool Lia Arith DecimalString.
From Stdlib Require Import Sorting.Sorted Sorting.Permutation.
Import ListNotations.

Local Open Scope string_scope.
Local Open Scope Z_scope.

(** ** Python values and effects *)

Definition datetime := Z.
Definition number := Q.

(** A cell handed to the csv writer. *)
Inductive value :=
| VNone
| VStr (s : string)
| VDatetime (t : datetime)
| VNum (q : number).

Inductive style := WARNING | SUCCESS.

(** What the command does to the outside world, in the order it does it. *)
Inductive event :=
| DbQuery (model : string)
| StdoutWrite (sty : style) (msg : string)
| S3Put (bucket key contents : string)
| SendMail (from_email to_email subject body html : string) (add_bcc : bool).

Inductive exn :=
| TypeError
| ValueError
| ArgumentTypeError (msg : string)
| UsageError (msg : string)
| BotoError
| MailError
| OutOfFuel.

Inductive outcome (A : Type) :=
| Returns (a : A)
| Raises (e : exn).
Arguments Returns {A} a.
Arguments Raises {A} e.

(** [csvfile] is the StringIO buffer, kept as the rows written to it;
    [trace] is the list of external effects, oldest first. *)
Record world := World {
  csvfile : list (list value);
  trace : list event
}.

Definition M (A : Type) := world -> outcome A * world.

Definition ret {A} (a : A) : M A := fun w => (Returns a, w).

Definition bind {A B} (m : M A) (k : A -> M B) : M B :=
  fun w => match m w with
           | (Returns a, w') => k a w'
           | (Raises e, w') => (Raises e, w')
           end.

Definition raise {A} (e : exn) : M A := fun w => (Raises e, w).

Definition emit (ev : event) : M unit :=
  fun w => (Returns tt, World (csvfile w) (trace w ++ [ev])).

Definition csv_append (row : list value) : M unit :=
  fun w => (Returns tt, World (csvfile w ++ [row]) (trace w)).

(** csvfile = StringIO.StringIO() *)
Definition csv_new : M unit :=
  fun w => (Returns tt, World [] (trace w)).

Declare Scope py_scope.
Delimit Scope py_scope with py.
Notation "x <- c1 ;; c2" := (bind c1 (fun x => c2))
  (at level 61, c1 at next level, right associativity) : py_scope.
Notation "c1 ;;; c2" := (bind c1 (fun _ => c2))
  (at level 61, right associativity) : py_scope.
Local Open Scope py_scope.

Definition stdout_write (sty : style) (msg : string) : M unit :=
  emit (StdoutWrite sty msg).

(** ** Regular expressions, as far as GITHUB_REPO_PATTERN needs them

    A pattern is a sequence of items; an item is one atom, or a greedy [+]
    over an atom, possibly inside the capturing group.  Matching backtracks
    the way Python's [re] does: a [+] first takes as many characters as it
    can and gives them back one at a time. *)

Inductive atom :=
| Lit (c : ascii)
| Dot
| WordDash.

Inductive item :=
| One (a : atom)
| Plus (a : atom)
| GroupPlus (a : atom).

Definition in_range (lo hi c : ascii) : bool :=
  ((nat_of_ascii lo <=? nat_of_ascii c)%nat && (nat_of_ascii c <=? nat_of_ascii hi)%nat)%bool.

(** [\w] without the UNICODE or LOCALE flag: [a-zA-Z0-9_]. *)
Definition is_word (c : ascii) : bool :=
  (in_range "a" "z" c || in_range "A" "Z" c || in_range "0" "9" c
   || Ascii.eqb c "_")%bool.

Definition newline : ascii := "010"%char.

Definition atom_matches (a : atom) (c : ascii) : bool :=
  match a with
  | Lit l => Ascii.eqb l c
  | Dot => negb (Ascii.eqb c newline)
  | WordDash => (is_word c || Ascii.eqb c "-")%bool
  end.

Fixpoint plus_greedy {R} (a : atom) (k : string -> string -> option R)
    (acc s : string) : option R :=
  match s with
  | EmptyString => None
  | String c s' =>
      if atom_matches a c then
        let acc' := acc ++ String c EmptyString in
        match plus_greedy a k acc' s' with
        | Some r => Some r
        | None => k acc' s'
        end
      else None
  end.

(** [match_here p g s]: match [p] at the start of [s]; [g] is what the
    group has captured so far; the result is the final capture. *)
Fixpoint match_here (p : list item) (g : string) (s : string) : option string :=
  match p with
  | [] => Some g
  | One a :: p' =>
      match s with
      | String c s' => if atom_matches a c then match_here p' g s' else None
      | EmptyString => None
      end
  | Plus a :: p' => plus_greedy a (fun _ rest => match_here p' g rest) "" s
  | GroupPlus a :: p' => plus_greedy a (fun g' rest => match_here p' g' rest) "" s
  end.

(** [pattern.search(s)]: the match at the leftmost position that has one;
    the result is [match.groups()[0]]. *)
Fixpoint search (p : list item) (s : string) : option string :=
  match match_here p "" s with
  | Some g => Some g
  | None =>
      match s with
      | EmptyString => None
      | String _ s' => search p s'
      end
  end.

Fixpoint lit (s : string) : list item :=
  match s with
  | EmptyString => []
  | String c s' => One (Lit c) :: lit s'
  end.

(** re.compile('github.com/[\w-]+/([\w-]+)'); the dot is not escaped. *)
Definition GITHUB_REPO_PATTERN : list item :=
  lit "github" ++ [One Dot] ++ lit "com/"
  ++ [Plus WordDash; One (Lit "/"); GroupPlus WordDash].

Definition DATE_FORMAT := "%Y/%m/%d".
Definition DATE_FORMAT_HYPHENATED := "%Y-%m-%d".
Definition REPORT_URL_EXPIRATION_TIME := 60 * 60 * 24 * 30.

(** ** extract_github_repo

    [url] is whatever the record holds: a string, or None.  A search on
    None is a TypeError. *)
Definition extract_github_repo (url : option string) : M string :=
  match url with
  | None => raise TypeError
  | Some u =>
      match search GITHUB_REPO_PATTERN u with
      | None =>
          stdout_write WARNING
            ("WARNING: malformed github url: " ++ u ++ ", using value as is") ;;;
          ret u
      | Some g => ret g
      end
  end.

(** ** Rows of the store (dashboard.models), as far as the command reads them *)

Module Bounty.
(** Modelled from the spec: the Bounty model of dashboard.models, which is not
    among the sources.  A row is the record of the attributes that the
    command reads, with the types of section 3; [natural_value] is what
    [get_natural_value()] returns; the URL and the two user names may be
    None. *)
Record t := Make {
    id : Z;
    network : string;
    current_bounty : bool;
    web3_created : datetime;
    modified_on : datetime;
    natural_value : number;
    token_name : string;
    value_in_eth : number;
    value_in_usdt : number;
    bounty_owner_address : string;
    claimeee_address : string;
    github_url : option string;
    bounty_owner_github_username : option string;
    claimee_github_username : option string;
    status : string
}.
End Bounty.

Module Tip.
(** Modelled from the spec: the Tip model of dashboard.models, which is not
    among the sources; the source URL may be absent (section 4.1). *)
Record t := Make {
    id : Z;
    network : string;
    created_on : datetime;
    modified_on : datetime;
    natural_value : number;
    tokenName : string;
    value_in_eth : number;
    value_in_usdt : number;
    github_url : option string;
    from_email : string;
    status : string
}.
End Tip.

Record database := Database {
  bounty_table : list Bounty.t;
  tip_table : list Tip.t
}.

(** ** The normalized record: the dict built by format_bounty / format_tip *)

Module ActivityRecord.
Record t := Make {
    type : string;
    created_on : datetime;
    last_activity : datetime;
    amount : number;
    denomination : string;
    amount_eth : number;
    amount_usdt : number;
    from_address : string;
    claimee_address : string;
    repo : string;
    from_username : string;
    claimee_github_username : string;
    status : string;
    comments : string
}.
End ActivityRecord.

(** [x or ''] on a value that is a string or None. *)
Definition or_empty (x : option string) : string :=
  match x with
  | Some s => s
  | None => ""
  end.

(** Truth value of a string or None. *)
Definition truthy (x : option string) : bool :=
  match x with
  | Some (String _ _) => true
  | _ => false
  end.

Definition format_bounty (bounty : Bounty.t) : M ActivityRecord.t :=
  repo <- extract_github_repo (Bounty.github_url bounty) ;;
  ret {| ActivityRecord.type := "bounty";
         ActivityRecord.created_on := Bounty.web3_created bounty;
         ActivityRecord.last_activity := Bounty.modified_on bounty;
         ActivityRecord.amount := Bounty.natural_value bounty;
         ActivityRecord.denomination := Bounty.token_name bounty;
         ActivityRecord.amount_eth := Bounty.value_in_eth bounty;
         ActivityRecord.amount_usdt := Bounty.value_in_usdt bounty;
         ActivityRecord.from_address := Bounty.bounty_owner_address bounty;
         ActivityRecord.claimee_address := Bounty.claimeee_address bounty;
         ActivityRecord.repo := repo;
         ActivityRecord.from_username := or_empty (Bounty.bounty_owner_github_username bounty);
         ActivityRecord.claimee_github_username := or_empty (Bounty.claimee_github_username bounty);
         ActivityRecord.status := Bounty.status bounty;
         ActivityRecord.comments := "" |}.

Definition format_tip (tip : Tip.t) : M ActivityRecord.t :=
  repo <- (if truthy (Tip.github_url tip)
           then extract_github_repo (Tip.github_url tip)
           else ret "") ;;
  ret {| ActivityRecord.type := "tip";
         ActivityRecord.created_on := Tip.created_on tip;
         ActivityRecord.last_activity := Tip.modified_on tip;
         ActivityRecord.amount := Tip.natural_value tip;
         ActivityRecord.denomination := Tip.tokenName tip;
         ActivityRecord.amount_eth := Tip.value_in_eth tip;
         ActivityRecord.amount_usdt := Tip.value_in_usdt tip;
         ActivityRecord.from_address := "";
         ActivityRecord.claimee_address := "";
         ActivityRecord.repo := repo;
         ActivityRecord.from_username := Tip.from_email tip;
         ActivityRecord.claimee_github_username := "";
         ActivityRecord.status := Tip.status tip;
         ActivityRecord.comments := "" |}.

(** ** csv.DictWriter *)

Definition dict := list (string * value).

Fixpoint dict_get (d : dict) (k : string) : option value :=
  match d with
  | [] => None
  | (k', v) :: d' => if String.eqb k' k then Some v else dict_get d' k
  end.

(** The dict that the csv writer receives for a normalized record. *)
Definition as_dict (r : ActivityRecord.t) : dict :=
  [ ("type", VStr (ActivityRecord.type r));
    ("created_on", VDatetime (ActivityRecord.created_on r));
    ("last_activity", VDatetime (ActivityRecord.last_activity r));
    ("amount", VNum (ActivityRecord.amount r));
    ("denomination", VStr (ActivityRecord.denomination r));
    ("amount_eth", VNum (ActivityRecord.amount_eth r));
    ("amount_usdt", VNum (ActivityRecord.amount_usdt r));
    ("from_address", VStr (ActivityRecord.from_address r));
    ("claimee_address", VStr (ActivityRecord.claimee_address r));
    ("repo", VStr (ActivityRecord.repo r));
    ("from_username", VStr (ActivityRecord.from_username r));
    ("claimee_github_username", VStr (ActivityRecord.claimee_github_username r));
    ("status", VStr (ActivityRecord.status r));
    ("comments", VStr (ActivityRecord.comments r)) ].

Definition fieldnames : list string :=
  [ "type"; "created_on"; "last_activity"; "amount"; "denomination"; "amount_eth";
    "amount_usdt"; "from_address"; "claimee_address"; "repo"; "from_username";
    "claimee_github_username"; "status"; "comments" ].

Definition mem (k : string) (ks : list string) : bool := existsb (String.eqb k) ks.

(** DictWriter._dict_to_list with extrasaction='raise' and restval=''. *)
Definition dict_to_list (fields : list string) (rowdict : dict) : M (list value) :=
  if forallb (fun kv => mem (fst kv) fields) rowdict
  then ret (map (fun k => match dict_get rowdict k with
                          | Some v => v
                          | None => VStr ""
                          end) fields)
  else raise ValueError.

Definition writerow (fields : list string) (rowdict : dict) : M unit :=
  row <- dict_to_list fields rowdict ;;
  csv_append row.

Definition writeheader (fields : list string) : M unit :=
  writerow fields (map (fun k => (k, VStr k)) fields).

Definition header_row : list value := map VStr fieldnames.

(** ** Iterators

    An iterator is the list of the computations that produce its remaining
    items: [imap f xs] applies [f] to an element when that element is
    pulled, not before. *)

Definition iterator (A : Type) := list (M A).

Definition imap {X A} (f : X -> M A) (xs : list X) : iterator A := map f xs.

(** iter(l) for a list that is already there. *)
Definition iter {A} (l : list A) : iterator A := map ret l.

(** ** itermerge *)

(** Modelled from the spec: the state of the generator [itermerge] of
    app.utils, which is not among the sources: for each input, the head that
    was pulled and is not emitted yet, and the rest of the input. *)
Record merge_gen (A : Type) := MergeGen {
  head_a : option A;
  gen_a : iterator A;
  head_b : option A;
  gen_b : iterator A
}.
Arguments MergeGen {A}.
Arguments head_a {A}.
Arguments gen_a {A}.
Arguments head_b {A}.
Arguments gen_b {A}.

(** Modelled from the spec: part of [itermerge]; pull the head of an input
    unless it is already held. *)
Definition fill {A} (head : option A) (gen : iterator A) : M (option A * iterator A) :=
  match head with
  | Some x => ret (Some x, gen)
  | None =>
      match gen with
      | [] => ret (None, [])
      | t :: gen' => x <- t ;; ret (Some x, gen')
      end
  end.

(** Modelled from the spec: [itermerge] of app.utils, which is not among the
    sources.  Section 4.2: a lazy two-way merge, a single forward pass over
    both inputs that produces one item at a time, advancing whichever head
    has the smaller key and, on a tie, emitting the head of the first input
    before that of the second; an empty input is no error; a failure while
    an element is produced propagates. *)
Definition itermerge {A} (gen_a gen_b : iterator A) : merge_gen A :=
  MergeGen None gen_a None gen_b.

(** Modelled from the spec: one call of next() on the generator of
    [itermerge]; [None] is StopIteration.  Both heads are pulled, the first
    input first; the head with the smaller key is emitted, the head of the
    first input on a tie. *)
Definition itermerge_next {A} (key : A -> Z) (g : merge_gen A)
    : M (option (A * merge_gen A)) :=
  pa <- fill (head_a g) (gen_a g) ;;
  pb <- fill (head_b g) (gen_b g) ;;
  match fst pa, fst pb with
  | Some a, Some b =>
      if key a <=? key b
      then ret (Some (a, MergeGen None (snd pa) (Some b) (snd pb)))
      else ret (Some (b, MergeGen (Some a) (snd pa) None (snd pb)))
  | Some a, None => ret (Some (a, MergeGen None (snd pa) None (snd pb)))
  | None, Some b => ret (Some (b, MergeGen None (snd pa) None (snd pb)))
  | None, None => ret None
  end.

Definition size_opt {A} (o : option A) : nat :=
  match o with Some _ => 1%nat | None => 0%nat end.

(** Number of items that the generator can still produce. *)
Definition gen_size {A} (g : merge_gen A) : nat :=
  (size_opt (head_a g) + List.length (gen_a g) + size_opt (head_b g) + List.length (gen_b g))%nat.

(** [for item in g: s = body(s, item)], with [s] the local variables that
    the body updates.  The loop is bounded by [fuel]; [S (gen_size g)] calls
    of next() always reach StopIteration (see [loop_normal]). *)
Fixpoint for_each {A S} (fuel : nat) (key : A -> Z) (g : merge_gen A)
    (body : S -> A -> M S) (s : S) : M S :=
  match fuel with
  | O => raise OutOfFuel
  | Datatypes.S n =>
      r <- itermerge_next key g ;;
      match r with
      | None => ret s
      | Some (item, g') => s' <- body s item ;; for_each n key g' body s'
      end
  end.

(** list(g): the items a generator produces. *)
Definition to_list {A} (key : A -> Z) (g : merge_gen A) : M (list A) :=
  for_each (S (gen_size g)) key g (fun acc item => ret (acc ++ [item])%list) [].

(** ** The store queries

    [Model.objects.filter(...).order_by(f, 'id')]: the rows of the table
    that pass the filter, in ascending order of [(f, id)]. *)

Fixpoint insert {A} (le : A -> A -> bool) (x : A) (l : list A) : list A :=
  match l with
  | [] => [x]
  | y :: l' => if le x y then x :: y :: l' else y :: insert le x l'
  end.

Definition order_by {A} (le : A -> A -> bool) (l : list A) : list A :=
  fold_right (insert le) [] l.

Definition lex_le (t1 i1 t2 i2 : Z) : bool :=
  ((t1 <? t2) || ((t1 =? t2) && (i1 <=? i2)))%bool.

Definition bounty_le (x y : Bounty.t) : bool :=
  lex_le (Bounty.web3_created x) (Bounty.id x) (Bounty.web3_created y) (Bounty.id y).

Definition tip_le (x y : Tip.t) : bool :=
  lex_le (Tip.created_on x) (Tip.id x) (Tip.created_on y) (Tip.id y).

Definition bounty_filter (start_date end_date : datetime) (b : Bounty.t) : bool :=
  (String.eqb (Bounty.network b) "mainnet"
   && Bool.eqb (Bounty.current_bounty b) true
   && (start_date <=? Bounty.web3_created b)
   && (Bounty.web3_created b <=? end_date))%bool.

Definition tip_filter (start_date end_date : datetime) (t : Tip.t) : bool :=
  (String.eqb (Tip.network t) "mainnet"
   && (start_date <=? Tip.created_on t)
   && (Tip.created_on t <=? end_date))%bool.

Definition query_bounties (db : database) (start_date end_date : datetime) : list Bounty.t :=
  order_by bounty_le (filter (bounty_filter start_date end_date) (bounty_table db)).

Definition query_tips (db : database) (start_date end_date : datetime) : list Tip.t :=
  order_by tip_le (filter (tip_filter start_date end_date) (tip_table db)).

(** ** The command *)

(** What the command takes from its surroundings: library functions
    (datetime, csv, boto, the mail transport), the clock and the Django
    settings.  [strptime v fmt] is [None] where datetime.strptime raises
    ValueError; [strftime d fmt] is [None] where datetime.strftime raises
    ValueError, which Python 2 does for a year before 1900; [csv_line row] is
    the text the csv writer produces for one row.  The calls to the storage
    and to the mail transport can fail: [connect_s3], [get_bucket],
    [set_contents_from_string] and [mail_transport] are [false], and
    [generate_url] is [None], where the call raises. *)
Record env := Env {
  strptime : string -> string -> option datetime;
  strftime : datetime -> string -> option string;
  now : string;
  csv_line : list value -> string;
  connect_s3 : string -> string -> bool;
  get_bucket : string -> bool;
  set_contents_from_string : string -> string -> string -> bool;
  generate_url : string -> string -> Z -> option string;
  mail_transport : string -> string -> string -> string -> string -> bool -> bool;
  AWS_ACCESS_KEY_ID : string;
  AWS_SECRET_ACCESS_KEY : string;
  S3_REPORT_BUCKET : string;
  S3_REPORT_PREFIX : string;
  CONTACT_EMAIL : string
}.

Record options := Options {
  start_date : datetime;
  end_date : datetime
}.

Definition dquote : string := String "034"%char EmptyString.

Definition startswith_slash (s : string) : bool :=
  match s with
  | String c _ => Ascii.eqb c "/"
  | EmptyString => false
  end.

Fixpoint endswith_slash (s : string) : bool :=
  match s with
  | EmptyString => false
  | String c EmptyString => Ascii.eqb c "/"
  | String _ s' => endswith_slash s'
  end.

(** os.path.join(a, b) *)
Definition path_join (a b : string) : string :=
  if startswith_slash b then b
  else if (String.eqb a "" || endswith_slash a)%bool then a ++ b
  else a ++ "/" ++ b.

(** StringIO.getvalue() of the csv buffer. *)
Definition getvalue (E : env) : M string :=
  fun w => (Returns (String.concat "" (map (csv_line E) (csvfile w))), w).

Section Command.

Variable E : env.

Definition valid_date (v : string) : M datetime :=
  match strptime E v DATE_FORMAT with
  | Some d => ret d
  | None => raise (ArgumentTypeError (v ++ " is not a date in YYYY/MM/DD format"))
  end.

(** d.strftime(fmt) *)
Definition py_strftime (d : datetime) (fmt : string) : M string :=
  match strftime E d fmt with
  | Some s => ret s
  | None => raise ValueError
  end.

(** A call to the outside that either succeeds or raises [e]. *)
Definition external (ok : bool) (e : exn) : M unit :=
  if ok then ret tt else raise e.

(** The object is recorded as stored when set_contents_from_string has
    succeeded. *)
Definition upload_to_s3 (filename contents : string) : M string :=
  external (connect_s3 E (AWS_ACCESS_KEY_ID E) (AWS_SECRET_ACCESS_KEY E)) BotoError ;;;
  let bucket := S3_REPORT_BUCKET E in
  external (get_bucket E bucket) BotoError ;;;
  let key := path_join (S3_REPORT_PREFIX E) filename in
  external (set_contents_from_string E bucket key contents) BotoError ;;;
  emit (S3Put bucket key contents) ;;;
  match generate_url E bucket key REPORT_URL_EXPIRATION_TIME with
  | Some url => ret url
  | None => raise BotoError
  end.

(** Modelled from the spec: [send_mail] of marketing.mails, which is not
    among the sources.  Section 4.4: the notifier takes the addresses, a
    subject and an HTML body; section 7: a failure of the mail transport
    propagates.  The mail is recorded as sent when the transport has
    succeeded. *)
Definition send_mail (from_email to_email subject body html : string) (add_bcc : bool)
    : M unit :=
  external (mail_transport E from_email to_email subject body html add_bcc) MailError ;;;
  emit (SendMail from_email to_email subject body html add_bcc).

Definition created_on_key (x : ActivityRecord.t) : Z := ActivityRecord.created_on x.

(** The two querysets are evaluated when imap takes their iterators, before
    the header is written; the records are formatted one at a time, when the
    merge pulls them. *)
Definition handle (opts : options) (db : database) : M unit :=
  let bounties := query_bounties db (start_date opts) (end_date opts) in
  let tips := query_tips db (start_date opts) (end_date opts) in
  emit (DbQuery "Bounty") ;;;
  let formatted_bounties := imap format_bounty bounties in
  emit (DbQuery "Tip") ;;;
  let formatted_tips := imap format_tip tips in
  csv_new ;;;
  writeheader fieldnames ;;;
  let g := itermerge formatted_bounties formatted_tips in
  has_rows <- for_each (S (gen_size g)) created_on_key g
                (fun _ item => writerow fieldnames (as_dict item) ;;; ret true) false ;;
  start <- py_strftime (start_date opts) DATE_FORMAT_HYPHENATED ;;
  end_ <- py_strftime (end_date opts) DATE_FORMAT_HYPHENATED ;;
  if has_rows : bool then
    let subject := "Gitcoin Activity report from " ++ start ++ " to " ++ end_ in
    contents <- getvalue E ;;
    url <- upload_to_s3
             ("activity_report_" ++ start ++ "_" ++ end_ ++ "_generated_on_" ++ now E ++ ".csv")
             contents ;;
    let body := "<a href=" ++ dquote ++ url ++ dquote ++ ">" ++ url ++ "</a>" in
    send_mail (CONTACT_EMAIL E) (CONTACT_EMAIL E) subject "" body false ;;;
    stdout_write SUCCESS
      ("Sent activity report from " ++ start ++ " to " ++ end_ ++ " to " ++ CONTACT_EMAIL E)
  else
    stdout_write WARNING ("No activity from " ++ start ++ " to " ++ end_ ++ " to report").

(** argparse: a type function that raises ArgumentTypeError makes the
    parser stop with a usage error. *)
Definition parse_argument (name : string) (conv : string -> M datetime) (v : string)
    : M datetime :=
  fun w => match conv v w with
           | (Raises (ArgumentTypeError msg), w') =>
               (Raises (UsageError ("argument " ++ name ++ ": " ++ msg)), w')
           | r => r
           end.

(** add_arguments: two positional arguments, both required.  [values] are
    the strings that the parser has for the positional arguments, once it
    has taken the options of BaseCommand (-h, --traceback, -v, ...) out of
    the command line; what those options do is not part of this model.  The
    values are converted in order; a missing value and a value too many are
    usage errors of the parser. *)
Definition parse_positionals (values : list string) : M options :=
  match values with
  | [] => raise (UsageError "too few arguments")
  | [s] =>
      parse_argument "start_date" valid_date s ;;;
      raise (UsageError "too few arguments")
  | s :: e :: rest =>
      start <- parse_argument "start_date" valid_date s ;;
      end_ <- parse_argument "end_date" valid_date e ;;
      match rest with
      | [] => ret (Options start end_)
      | _ => raise (UsageError ("unrecognized arguments: " ++ String.concat " " rest))
      end
  end.

(** One invocation with the positional values [values]: they are parsed,
    then [handle] runs. *)
Definition run_command (values : list string) (db : database) : M unit :=
  opts <- parse_positionals values ;;
  handle opts db.

End Command.

Definition empty_world : world := World [] [].

(** ** A reference environment

    The library functions as CPython has them for the two formats that the
    command uses, a clock, and settings; the examples below run in it.
    A datetime is the number of microseconds since 0001-01-01 00:00. *)

Module Reference.

Definition is_digit (c : ascii) : bool := in_range "0" "9" c.

Definition digit (c : ascii) : Z := Z.of_nat (nat_of_ascii c) - 48.

Definition is_leap (y : Z) : bool :=
  ((y mod 4 =? 0) && (negb (y mod 100 =? 0) || (y mod 400 =? 0)))%bool.

Definition days_in_month (y m : Z) : Z :=
  if m =? 2 then (if is_leap y then 29 else 28)
  else if ((m =? 4) || (m =? 6) || (m =? 9) || (m =? 11))%bool then 30
  else 31.

Fixpoint days_before_month (y : Z) (m : nat) : Z :=
  match m with
  | O => 0
  | S m' => days_before_month y m' + days_in_month y (Z.of_nat m')
  end.

Definition days_before_year (y : Z) : Z :=
  (y - 1) * 365 + (y - 1) / 4 - (y - 1) / 100 + (y - 1) / 400.

(** date(y, m, d).toordinal() *)
Definition ymd2ord (y m d : Z) : Z :=
  days_before_year y + (days_before_month y (Z.to_nat m) - days_in_month y 0) + d.

Definition micros_per_day : Z := 86400 * 1000000.

Definition parse_year (s : string) : option (Z * string) :=
  match s with
  | String a (String b (String c (String d rest))) =>
      if (is_digit a && is_digit b && is_digit c && is_digit d)%bool
      then Some (digit a * 1000 + digit b * 100 + digit c * 10 + digit d, rest)
      else None
  | _ => None
  end.

(** 1[0-2]|0[1-9]|[1-9] *)
Definition parse_month (s : string) : option (Z * string) :=
  match s with
  | String a rest =>
      match rest with
      | String b rest' =>
          if (Ascii.eqb a "1" && in_range "0" "2" b)%bool then Some (10 + digit b, rest')
          else if (Ascii.eqb a "0" && in_range "1" "9" b)%bool then Some (digit b, rest')
          else if in_range "1" "9" a then Some (digit a, rest)
          else None
      | EmptyString => if in_range "1" "9" a then Some (digit a, rest) else None
      end
  | EmptyString => None
  end.

(** 3[0-1]|[1-2]\d|0[1-9]|[1-9]| [1-9] *)
Definition parse_day (s : string) : option (Z * string) :=
  match s with
  | String a rest =>
      match rest with
      | String b rest' =>
          if (Ascii.eqb a "3" && in_range "0" "1" b)%bool then Some (30 + digit b, rest')
          else if (in_range "1" "2" a && is_digit b)%bool then Some (digit a * 10 + digit b, rest')
          else if (Ascii.eqb a "0" && in_range "1" "9" b)%bool then Some (digit b, rest')
          else if in_range "1" "9" a then Some (digit a, rest)
          else if (Ascii.eqb a " " && in_range "1" "9" b)%bool then Some (digit b, rest')
          else None
      | EmptyString => if in_range "1" "9" a then Some (digit a, rest) else None
      end
  | EmptyString => None
  end.

Definition expect_slash (s : string) : option string :=
  match s with
  | String c rest => if Ascii.eqb c "/" then Some rest else None
  | EmptyString => None
  end.

(** datetime.strptime(v, '%Y/%m/%d') *)
Definition strptime_Ymd (v : string) : option datetime :=
  match parse_year v with
  | Some (y, s1) =>
      match expect_slash s1 with
      | Some s2 =>
          match parse_month s2 with
          | Some (m, s3) =>
              match expect_slash s3 with
              | Some s4 =>
                  match parse_day s4 with
                  | Some (d, EmptyString) =>
                      if ((1 <=? y) && (d <=? days_in_month y m))%bool
                      then Some ((ymd2ord y m d - 1) * micros_per_day)
                      else None
                  | _ => None
                  end
              | None => None
              end
          | None => None
          end
      | None => None
      end
  | None => None
  end.

Definition strptime (v fmt : string) : option datetime :=
  if String.eqb fmt DATE_FORMAT then strptime_Ymd v else None.

Definition digit_char (n : Z) : string :=
  String (ascii_of_nat (Z.to_nat (48 + n mod 10))) EmptyString.

Definition pad2 (n : Z) : string := digit_char (n / 10) ++ digit_char n.

Definition pad4 (n : Z) : string := pad2 (n / 100) ++ pad2 (n mod 100).

(** The year that holds day [n], counted from 0001-01-01 as day 1. *)
Definition year_of_ordinal (n : Z) : Z :=
  let y := (n - 1) / 366 + 1 in
  let fix up (k : nat) (y : Z) : Z :=
    match k with
    | O => y
    | S k' => if days_before_year (y + 1) <? n then up k' (y + 1) else y
    end in
  up 40%nat y.

Fixpoint month_of (y : Z) (rest : Z) (m : nat) (k : nat) : Z * Z :=
  match k with
  | O => (Z.of_nat m, rest)
  | S k' =>
      let dim := days_in_month y (Z.of_nat m) in
      if rest <=? dim then (Z.of_nat m, rest) else month_of y (rest - dim) (S m) k'
  end.

(** dt.strftime('%Y-%m-%d') *)
Definition strftime_hyphenated (t : datetime) : string :=
  let n := t / micros_per_day + 1 in
  let y := year_of_ordinal n in
  let md := month_of y (n - days_before_year y) 1 11 in
  pad4 y ++ "-" ++ pad2 (fst md) ++ "-" ++ pad2 (snd md).

(** dt.strftime('%Y-%m-%d') in Python 2: ValueError for a year before 1900.
    Only the format that the command uses is given. *)
Definition strftime (t : datetime) (fmt : string) : option string :=
  if String.eqb fmt DATE_FORMAT_HYPHENATED
  then (if year_of_ordinal (t / micros_per_day + 1) <? 1900
        then None
        else Some (strftime_hyphenated t))
  else None.

(** A number with two decimals. *)
Definition str_of_number (q : number) : string :=
  let cents := Qnum q * 100 / Zpos (Qden q) in
  NilZero.string_of_int (Z.to_int (cents / 100)) ++ "." ++ pad2 (cents mod 100).

Definition str_of_value (v : value) : string :=
  match v with
  | VNone => ""
  | VStr s => s
  | VDatetime t => strftime_hyphenated t
  | VNum q => str_of_number q
  end.

(** A csv line without quoting: the cells, comma separated, then CR LF. *)
Definition csv_line (row : list value) : string :=
  String.concat "," (map str_of_value row)
  ++ String "013"%char (String "010"%char EmptyString).

Definition generate_url (bucket key : string) (expires_in : Z) : option string :=
  Some ("https://" ++ bucket ++ ".s3.amazonaws.com/" ++ key).

(** A storage and a mail transport that work. *)
Definition E : env :=
  Env strptime strftime "2018-02-01 09:00:00.000000" csv_line
      (fun _ _ => true) (fun _ => true) (fun _ _ _ => true) generate_url
      (fun _ _ _ _ _ _ => true)
      "key-id" "secret" "reports" "activity" "ops@example.com".

(** The same surroundings with a mail transport that fails. *)
Definition E_mail_down : env :=
  Env strptime strftime "2018-02-01 09:00:00.000000" csv_line
      (fun _ _ => true) (fun _ => true) (fun _ _ _ => true) generate_url
      (fun _ _ _ _ _ _ => false)
      "key-id" "secret" "reports" "activity" "ops@example.com".

End Reference.

(** ** Sample rows for the examples *)

Module Sample.

Definition date (y m d : Z) : datetime :=
  (Reference.ymd2ord y m d - 1) * Reference.micros_per_day.

Definition bounty1 : Bounty.t :=
  Bounty.Make 7 "mainnet" true (date 2018 1 2) (date 2018 1 5) (3 # 2) "ETH" (3 # 2) (900 # 1)
    "0xaa" "0xbb" (Some "https://github.com/gitcoinco/web") (Some "owocki") None "open".

(** A bounty whose github_url is None. *)
Definition bounty_no_url : Bounty.t :=
  Bounty.Make 9 "mainnet" true (date 2018 1 3) (date 2018 1 3) (1 # 1) "ETH" (1 # 1) (600 # 1)
    "0xcc" "" None None None "open".

(** A superseded version of [bounty1], and a bounty on a test network. *)
Definition bounty_old : Bounty.t :=
  Bounty.Make 5 "mainnet" false (date 2018 1 2) (date 2018 1 2) (3 # 2) "ETH" (3 # 2) (900 # 1)
    "0xaa" "" (Some "https://github.com/gitcoinco/web") (Some "owocki") None "open".

Definition bounty_testnet : Bounty.t :=
  Bounty.Make 6 "rinkeby" true (date 2018 1 2) (date 2018 1 2) (1 # 1) "ETH" (1 # 1) (600 # 1)
    "0xdd" "" (Some "https://github.com/gitcoinco/web") None None "open".

Definition tip1 : Tip.t :=
  Tip.Make 3 "mainnet" (date 2018 1 1) (date 2018 1 1) (1 # 10) "ETH" (1 # 10) (60 # 1)
    None "tipper@example.com" "sent".

(** A tip created at the same time as [bounty1]. *)
Definition tip2 : Tip.t :=
  Tip.Make 4 "mainnet" (date 2018 1 2) (date 2018 1 2) (1 # 5) "ETH" (1 # 5) (120 # 1)
    (Some "https://example.com/x") "other@example.com" "sent".

Definition db_A : database := Database [bounty_old; bounty1; bounty_testnet] [tip2; tip1].


Definition db_abort : database := Database [bounty_no_url; bounty1] [].

Definition january : options := Options (date 2018 1 1) (date 2018 1 31).


Definition since_1899 : options := Options (date 1899 1 1) (date 2018 1 31).

Definition record (type : string) (t : datetime) (who : string) : ActivityRecord.t :=
  ActivityRecord.Make type t t (1 # 1) "ETH" (1 # 1) (600 # 1) "" "" "web" who "" "open" "".

(** Two sorted sequences with a tie on 2018-01-02. *)
Definition S1 : list ActivityRecord.t :=
  [record "bounty" (date 2018 1 1) "a"; record "bounty" (date 2018 1 2) "b"].

Definition S2 : list ActivityRecord.t :=
  [record "tip" (date 2018 1 2) "c"; record "tip" (date 2018 1 3) "d"].

End Sample.

(** ** Vocabulary of the statements *)

(** The sequence that [itermerge] produces from two sequences that are
    already there (see [to_list_itermerge]). *)
Fixpoint merged {A} (key : A -> Z) (l1 : list A) : list A -> list A :=
  fix merged_aux (l2 : list A) : list A :=
    match l1, l2 with
    | [], _ => l2
    | _, [] => l1
    | a :: l1', b :: l2' =>
        if key a <=? key b then a :: merged key l1' l2 else b :: merged_aux l2'
    end.

(** Sorted ascending by [key]. *)
Definition sorted_by {A} (key : A -> Z) (l : list A) : Prop :=
  Sorted (fun x y => key x <= key y) l.

Definition is_mail (ev : event) : bool :=
  match ev with SendMail _ _ _ _ _ _ => true | _ => false end.

Definition is_upload (ev : event) : bool :=
  match ev with S3Put _ _ _ => true | _ => false end.

Definition is_warning (ev : event) : bool :=
  match ev with StdoutWrite WARNING _ => true | _ => false end.

(** The csv row of a normalized record: its values in the order of
    [fieldnames]. *)
Definition row_of (r : ActivityRecord.t) : list value :=
  [ VStr (ActivityRecord.type r);
    VDatetime (ActivityRecord.created_on r);
    VDatetime (ActivityRecord.last_activity r);
    VNum (ActivityRecord.amount r);
    VStr (ActivityRecord.denomination r);
    VNum (ActivityRecord.amount_eth r);
    VNum (ActivityRecord.amount_usdt r);
    VStr (ActivityRecord.from_address r);
    VStr (ActivityRecord.claimee_address r);
    VStr (ActivityRecord.repo r);
    VStr (ActivityRecord.from_username r);
    VStr (ActivityRecord.claimee_github_username r);
    VStr (ActivityRecord.status r);
    VStr (ActivityRecord.comments r) ].

(** The world after [evs] more effects. *)
Definition after (w : world) (evs : list event) : world :=
  World (csvfile w) (trace w ++ evs).

(** Every character of the string is in [[\w-]]. *)
Fixpoint all_word_dash (s : string) : bool :=
  match s with
  | EmptyString => true
  | String c s' => (atom_matches WordDash c && all_word_dash s')%bool
  end.

Definition starts_word_dash (s : string) : bool :=
  match s with
  | EmptyString => false
  | String c _ => atom_matches WordDash c
  end.

(** [github_match_at s g]: the pattern matches at the start of [s], with
    [g] the path segment after [github.com/<owner>/]: as many characters of
    [[\w-]] as there are. *)
Definition github_match_at (s g : string) : Prop :=
  exists (c : ascii) (owner rest : string),
    s = "github" ++ String c ("com/" ++ owner ++ "/" ++ g ++ rest)
    /\ c <> newline
    /\ owner <> "" /\ all_word_dash owner = true
    /\ g <> "" /\ all_word_dash g = true
    /\ starts_word_dash rest = false.

(** The pattern matches somewhere in [url], and [g] is the capture of the
    leftmost match. *)
Definition github_match (url g : string) : Prop :=
  exists pre s,
    url = pre ++ s /\ github_match_at s g
    /\ forall pre' s' g', url = pre' ++ s' -> github_match_at s' g' ->
                          (String.length pre <= String.length pre')%nat.

Definition no_github_match (url : string) : Prop :=
  forall pre s g, url = pre ++ s -> ~ github_match_at s g.

Definition malformed_warning (url : string) : event :=
  StdoutWrite WARNING ("WARNING: malformed github url: " ++ url ++ ", using value as is").

(** Ascending order of [(web3_created, id)] and of [(created_on, id)]. *)
Definition bounty_before (x y : Bounty.t) : Prop :=
  Bounty.web3_created x < Bounty.web3_created y
  \/ (Bounty.web3_created x = Bounty.web3_created y /\ Bounty.id x <= Bounty.id y).

Definition tip_before (x y : Tip.t) : Prop :=
  Tip.created_on x < Tip.created_on y
  \/ (Tip.created_on x = Tip.created_on y /\ Tip.id x <= Tip.id y).

(** The usage error for an argument that is not a date. *)
Definition date_error (name v : string) : exn :=
  UsageError ("argument " ++ name ++ ": " ++ v ++ " is not a date in YYYY/MM/DD format").

Definition hyphenated (E : env) (d : datetime) : option string :=
  strftime E d DATE_FORMAT_HYPHENATED.

Definition report_key (E : env) (start end_ : string) : string :=
  path_join (S3_REPORT_PREFIX E)
    ("activity_report_" ++ start ++ "_" ++ end_ ++ "_generated_on_" ++ now E ++ ".csv").

(** The text of a csv buffer. *)
Definition document (E : env) (rows : list (list value)) : string :=
  String.concat "" (map (csv_line E) rows).

Definition report_upload (E : env) (start end_ : string) (rows : list (list value)) : event :=
  S3Put (S3_REPORT_BUCKET E) (report_key E start end_) (document E rows).

Definition mail_subject (start end_ : string) : string :=
  "Gitcoin Activity report from " ++ start ++ " to " ++ end_.

Definition mail_body (url : string) : string :=
  "<a href=" ++ dquote ++ url ++ dquote ++ ">" ++ url ++ "</a>".

Definition report_mail (E : env) (start end_ url : string) : event :=
  SendMail (CONTACT_EMAIL E) (CONTACT_EMAIL E) (mail_subject start end_) "" (mail_body url) false.

Definition report_sent_message (E : env) (start end_ : string) : event :=
  StdoutWrite SUCCESS
    ("Sent activity report from " ++ start ++ " to " ++ end_ ++ " to " ++ CONTACT_EMAIL E).

Definition no_activity_message (start end_ : string) : event :=
  StdoutWrite WARNING ("No activity from " ++ start ++ " to " ++ end_ ++ " to report").

(** The three calls of upload_to_s3 up to the stored object succeed. *)
Definition stored (E : env) (start end_ : string) (rows : list (list value)) : bool :=
  (connect_s3 E (AWS_ACCESS_KEY_ID E) (AWS_SECRET_ACCESS_KEY E)
   && get_bucket E (S3_REPORT_BUCKET E)
   && set_contents_from_string E (S3_REPORT_BUCKET E) (report_key E start end_)
        (document E rows))%bool.

Definition mailed (E : env) (start end_ url : string) : bool :=
  mail_transport E (CONTACT_EMAIL E) (CONTACT_EMAIL E) (mail_subject start end_) ""
    (mail_body url) false.

(** What [handle] does after the loop, given the rows of the buffer: how it
    ends and the effects it adds. *)
Definition report (E : env) (opts : options) (rows : list (list value))
    : outcome unit * list event :=
  match hyphenated E (start_date opts), hyphenated E (end_date opts) with
  | Some start, Some end_ =>
      match rows with
      | _ :: _ :: _ =>
          if stored E start end_ rows then
            match generate_url E (S3_REPORT_BUCKET E) (report_key E start end_)
                    REPORT_URL_EXPIRATION_TIME with
            | Some url =>
                if mailed E start end_ url
                then (Returns tt, [report_upload E start end_ rows; report_mail E start end_ url;
                                   report_sent_message E start end_])
                else (Raises MailError, [report_upload E start end_ rows])
            | None => (Raises BotoError, [report_upload E start end_ rows])
            end
          else (Raises BotoError, [])
      | _ => (Returns tt, [no_activity_message start end_])
      end
  | _, _ => (Raises ValueError, [])
  end.

(** Lines 141 to 154 of [handle], with has_rows as it is after the loop. *)
Definition finish (E : env) (opts : options) (has_rows : bool) : M unit :=
  bind (py_strftime E (start_date opts) DATE_FORMAT_HYPHENATED) (fun start =>
  bind (py_strftime E (end_date opts) DATE_FORMAT_HYPHENATED) (fun end_ =>
  if has_rows then
    bind (getvalue E) (fun contents =>
    bind (upload_to_s3 E
            ("activity_report_" ++ start ++ "_" ++ end_ ++ "_generated_on_" ++ now E ++ ".csv")
            contents) (fun url =>
    bind (send_mail E (CONTACT_EMAIL E) (CONTACT_EMAIL E) (mail_subject start end_) ""
            (mail_body url) false) (fun _ =>
    stdout_write SUCCESS
      ("Sent activity report from " ++ start ++ " to " ++ end_ ++ " to " ++ CONTACT_EMAIL E))))
  else
    stdout_write WARNING ("No activity from " ++ start ++ " to " ++ end_ ++ " to report"))).

Definition queries : list event := [DbQuery "Bounty"; DbQuery "Tip"].

Definition warning (ev : event) : Prop := is_warning ev = true.

Definition type_error (e : exn) : Prop := e = TypeError.

(** The body of the loop of [handle]; the local variable is has_rows. *)
Definition handle_body (_ : bool) (item : ActivityRecord.t) : M bool :=
  writerow fieldnames (as_dict item) ;;; ret true.

Definition is_bounty (r : ActivityRecord.t) : bool :=
  String.eqb (ActivityRecord.type r) "bounty".

(** *** Computations that only add effects *)

(** What such a computation does: its outcome and the effects it adds,
    whatever the world. *)
Definition describes {A} (t : M A) (d : outcome A * list event) : Prop :=
  forall w, t w = (fst d, after w (snd d)).

(** The outcome and the effects, read off a run in the empty world. *)
Definition outcome_of {A} (m : M A) : outcome A * list event :=
  (fst (m empty_world), trace (snd (m empty_world))).

Definition bounty_outcomes (bs : list Bounty.t) : list (outcome ActivityRecord.t * list event) :=
  map (fun b => outcome_of (format_bounty b)) bs.

Definition tip_outcomes (ts : list Tip.t) : list (outcome ActivityRecord.t * list event) :=
  map (fun t => outcome_of (format_tip t)) ts.

Definition is_ok {A} (d : outcome A * list event) : bool :=
  match fst d with Returns _ => true | Raises _ => false end.

(** The values of the computations that return. *)
Definition values {A} (ds : list (outcome A * list event)) : list A :=
  flat_map (fun d => match fst d with Returns v => [v] | Raises _ => [] end) ds.

Definition all_ok {A} (da db : list (outcome A * list event)) : bool :=
  (forallb is_ok da && forallb is_ok db)%bool.

(** The effects satisfy [P] and an exception satisfies [Ex]. *)
Definition good {A} (P : event -> Prop) (Ex : exn -> Prop) (d : outcome A * list event) : Prop :=
  Forall P (snd d) /\ match fst d with Raises e => Ex e | Returns _ => True end.

(** The result [r] of a loop over the merge of two inputs described by [da]
    and [db], started with [s] in [w], whose body maps [s] and an item [x]
    to [upd s x] and writes the rows [out x]. *)
Definition loop_post {A S} (key : A -> Z) (upd : S -> A -> S) (out : A -> list (list value))
    (P : event -> Prop) (Ex : exn -> Prop)
    (da db : list (outcome A * list event)) (s : S) (w : world)
    (r : outcome S * world) : Prop :=
  exists items warns,
    snd r = World (csvfile w ++ flat_map out items) (trace w ++ warns)
    /\ Forall P warns
    /\ if all_ok da db
       then fst r = Returns (fold_left upd items s)
            /\ items = merged key (values da) (values db)
       else exists e, fst r = Raises e /\ Ex e.

(** *** Whether a mail was sent, and the data rows, in the world that a run
    from the empty world leaves *)

Definition mail_sent (w : world) : Prop :=
  exists ev, In ev (trace w) /\ is_mail ev = true.

Definition data_rows (w : world) : list (list value) := tl (csvfile w).

(** *** More vocabulary *)

(** No character of [s] is [c]. *)
Fixpoint free_of (c : ascii) (s : string) : bool :=
  match s with
  | EmptyString => true
  | String x s' => (negb (Ascii.eqb c x) && free_of c s')%bool
  end.


(** The tables of [Sample.db_A] in the opposite order. *)
Definition db_A_reversed : database :=
  Database (rev (bounty_table Sample.db_A)) (rev (tip_table Sample.db_A)).

(** A range whose end is before its start. *)
Definition reversed_january : options := Options (Sample.date 2018 1 31) (Sample.date 2018 1 1).

(** * Theorems *)

(** * Strings *)

Lemma append_assoc (a b c : string) : (a ++ b) ++ c = a ++ (b ++ c).
Proof. induction a as [|x a IH]; simpl; [reflexivity | now rewrite IH]. Qed.

Lemma append_empty_r (a : string) : a ++ "" = a.
Proof. induction a as [|x a IH]; simpl; [reflexivity | now rewrite IH]. Qed.

Lemma length_append (a b : string) :
  String.length (a ++ b) = (String.length a + String.length b)%nat.
Proof. induction a as [|x a IH]; simpl; [reflexivity | now rewrite IH]. Qed.

(** * The pattern *)

Local Arguments atom_matches : simpl never.

Lemma match_here_one a p g s r :
  match_here (One a :: p) g s = Some r <->
  exists c s', s = String c s' /\ atom_matches a c = true /\ match_here p g s' = Some r.
Proof.
  simpl. split.
  - destruct s as [|c s']; [discriminate|].
    destruct (atom_matches a c) eqn:Hm; [|discriminate].
    intros H. now exists c, s'.
  - intros (c & s' & -> & Hm & H). now rewrite Hm.
Qed.

Lemma match_here_lit c p g s r :
  match_here (One (Lit c) :: p) g s = Some r <->
  exists s', s = String c s' /\ match_here p g s' = Some r.
Proof.
  rewrite match_here_one. split.
  - intros (c' & s' & -> & Hm & H). unfold atom_matches in Hm. apply Ascii.eqb_eq in Hm. subst c'.
    now exists s'.
  - intros (s' & -> & H). exists c, s'. unfold atom_matches. now rewrite Ascii.eqb_refl.
Qed.

(** A greedy [+] whose continuation refuses a string that starts with a
    character of the class: the run is the whole run. *)
Lemma plus_greedy_sep {R} (k : string -> string -> option R) :
  (forall acc c rest, atom_matches WordDash c = true -> k acc (String c rest) = None) ->
  forall s acc r,
    plus_greedy WordDash k acc s = Some r <->
    exists run rest, s = run ++ rest /\ run <> "" /\ all_word_dash run = true
                     /\ k (acc ++ run) rest = Some r.
Proof.
  intros Hk. induction s as [|c s IH]; intros acc r; simpl.
  - split; [discriminate|]. intros (run & rest & Hs & Hne & _).
    destruct run; [congruence | discriminate].
  - destruct (atom_matches WordDash c) eqn:Hc.
    + split.
      * destruct (plus_greedy WordDash k (acc ++ String c "") s) as [r'|] eqn:Hp.
        -- intros [= ->]. apply IH in Hp. destruct Hp as (run & rest & -> & Hne & Hall & Hk').
           exists (String c run), rest. simpl. rewrite Hc, Hall.
           rewrite append_assoc in Hk'. simpl in Hk'. repeat split; auto. discriminate.
        -- intros Hk'. exists (String c ""), s. simpl. rewrite Hc. repeat split; auto. discriminate.
      * intros (run & rest & Hs & Hne & Hall & Hk').
        destruct run as [|c' run]; [congruence|]. simpl in Hs. injection Hs as <- ->.
        simpl in Hall. rewrite Hc in Hall. simpl in Hall.
        destruct run as [|c2 run].
        -- simpl in *. destruct (plus_greedy WordDash k (acc ++ String c "") rest) as [r'|] eqn:Hp; auto.
           apply IH in Hp. destruct Hp as (run & rest' & -> & Hne' & Hall' & _).
           destruct run as [|c3 run]; [congruence|]. simpl in Hall'.
           apply andb_true_iff in Hall'. destruct Hall' as [H3 _].
           simpl in Hk'. rewrite (Hk _ _ _ H3) in Hk'. discriminate.
        -- assert (Hp : plus_greedy WordDash k (acc ++ String c "") (String c2 run ++ rest) = Some r).
           { apply IH. exists (String c2 run), rest. repeat split; auto; [discriminate|].
             rewrite append_assoc. exact Hk'. }
           now rewrite Hp.
    + split; [discriminate|]. intros (run & rest & Hs & Hne & Hall & _).
      destruct run as [|c' run]; [congruence|]. simpl in Hs. injection Hs as <- ->.
      simpl in Hall. rewrite Hc in Hall. discriminate.
Qed.

(** A greedy [+] with nothing after it takes the whole run. *)
Lemma plus_greedy_last :
  forall s acc r,
    plus_greedy WordDash (fun g' _ => Some g') acc s = Some r <->
    exists run rest, s = run ++ rest /\ run <> "" /\ all_word_dash run = true
                     /\ starts_word_dash rest = false /\ r = acc ++ run.
Proof.
  induction s as [|c s IH]; intros acc r; simpl.
  - split; [discriminate|]. intros (run & rest & Hs & Hne & _).
    destruct run; [congruence | discriminate].
  - destruct (atom_matches WordDash c) eqn:Hc.
    + split.
      * destruct (plus_greedy WordDash (fun g' _ => Some g') (acc ++ String c "") s) as [r'|] eqn:Hp.
        -- intros [= ->]. apply IH in Hp. destruct Hp as (run & rest & -> & Hne & Hall & Hst & ->).
           exists (String c run), rest. simpl. rewrite Hc, Hall, append_assoc.
           repeat split; auto. discriminate.
        -- intros [= <-]. exists (String c ""), s. simpl. rewrite Hc. repeat split; auto; [discriminate|].
           destruct s as [|c2 s]; [reflexivity|]. simpl.
           destruct (atom_matches WordDash c2) eqn:Hc2; [|reflexivity].
           exfalso. simpl in Hp. rewrite Hc2 in Hp.
           destruct (plus_greedy WordDash (fun g' _ => Some g') ((acc ++ String c "") ++ String c2 "") s);
             discriminate.
      * intros (run & rest & Hs & Hne & Hall & Hst & ->).
        destruct run as [|c' run]; [congruence|]. simpl in Hs. injection Hs as <- ->.
        simpl in Hall. rewrite Hc in Hall. simpl in Hall.
        destruct run as [|c2 run].
        -- simpl. destruct rest as [|c3 rest]; simpl; [reflexivity|].
           simpl in Hst. now rewrite Hst.
        -- assert (Hp : plus_greedy WordDash (fun g' _ => Some g') (acc ++ String c "")
                          (String c2 run ++ rest) = Some ((acc ++ String c "") ++ String c2 run)).
           { apply IH. exists (String c2 run), rest. repeat split; auto. discriminate. }
           rewrite Hp. now rewrite append_assoc.
    + split; [discriminate|]. intros (run & rest & Hs & Hne & Hall & _).
      destruct run as [|c' run]; [congruence|]. simpl in Hs. injection Hs as <- ->.
      simpl in Hall. rewrite Hc in Hall. discriminate.
Qed.

Lemma word_dash_not_slash c : atom_matches WordDash c = true -> c <> "/"%char.
Proof. intros H ->. vm_compute in H. discriminate. Qed.

Lemma match_here_iff s g :
  match_here GITHUB_REPO_PATTERN "" s = Some g <-> github_match_at s g.
Proof.
  unfold GITHUB_REPO_PATTERN, github_match_at. cbn [lit app].
  split.
  - intros H.
    repeat (apply match_here_lit in H; destruct H as (? & -> & H)).
    apply match_here_one in H. destruct H as (c & s1 & -> & Hc & H).
    repeat (apply match_here_lit in H; destruct H as (? & -> & H)).
    cbn [match_here] in H.
    apply plus_greedy_sep in H.
    2:{ intros acc c' rest Hc'. destruct (Ascii.eqb_spec "/"%char c') as [<-|Hne].
        - now apply word_dash_not_slash in Hc'.
        - unfold atom_matches. apply Ascii.eqb_neq in Hne. now rewrite Hne. }
    destruct H as (owner & rest & -> & Hne & Hall & H).
    destruct rest as [|c' rest]; [discriminate|].
    destruct (atom_matches (Lit "/") c') eqn:Hs; [|discriminate].
    unfold atom_matches in Hs. apply Ascii.eqb_eq in Hs. subst c'.
    apply plus_greedy_last in H. destruct H as (run & rest' & -> & Hne' & Hall' & Hst & ->).
    exists c, owner, rest'. cbn. repeat split; auto.
    unfold atom_matches in Hc. intros ->. now rewrite Ascii.eqb_refl in Hc.
  - intros (c & owner & rest & -> & Hc & Hne & Hall & Hne' & Hall' & Hst).
    cbn [append].
    repeat (apply match_here_lit; eexists; split; [reflexivity|]).
    apply match_here_one. exists c. eexists. split; [reflexivity|]. split.
    { unfold atom_matches. apply Ascii.eqb_neq in Hc. now rewrite Hc. }
    repeat (apply match_here_lit; eexists; split; [reflexivity|]).
    cbn [match_here].
    apply plus_greedy_sep.
    { intros acc c' rest' Hc'. destruct (Ascii.eqb_spec "/"%char c') as [<-|Hne1].
      - now apply word_dash_not_slash in Hc'.
      - unfold atom_matches. apply Ascii.eqb_neq in Hne1. now rewrite Hne1. }
    exists owner, ("/" ++ g ++ rest). repeat split; auto.
    cbn [append]. unfold atom_matches at 1. rewrite Ascii.eqb_refl.
    apply plus_greedy_last. exists g, rest. repeat split; auto.
Qed.

Lemma github_match_at_empty g : ~ github_match_at "" g.
Proof. intros (c & owner & rest & H & _). discriminate. Qed.

(** [search] finds the leftmost match, or there is none. *)
Lemma search_spec url :
  match search GITHUB_REPO_PATTERN url with
  | Some g => github_match url g
  | None => no_github_match url
  end.
Proof.
  induction url as [|c url IH]; cbn [search].
  - destruct (match_here GITHUB_REPO_PATTERN "" "") as [g|] eqn:Hm.
    + apply match_here_iff in Hm. now apply github_match_at_empty in Hm.
    + intros pre s g Hs Hat. destruct pre; [|discriminate]. simpl in Hs. subst s.
      now apply github_match_at_empty in Hat.
  - destruct (match_here GITHUB_REPO_PATTERN "" (String c url)) as [g|] eqn:Hm.
    + apply match_here_iff in Hm. exists "", (String c url). repeat split; auto.
      intros. simpl. lia.
    + destruct (search GITHUB_REPO_PATTERN url) as [g|].
      * destruct IH as (pre & s & -> & Hat & Hleft).
        exists (String c pre), s. repeat split; auto.
        intros pre' s' g' Hs Hat'. destruct pre' as [|c' pre'].
        -- simpl in Hs. subst s'. apply match_here_iff in Hat'. congruence.
        -- simpl in Hs. injection Hs as <- Hs. simpl.
           specialize (Hleft pre' s' g' Hs Hat'). lia.
      * intros pre s g Hs Hat. destruct pre as [|c' pre].
        -- simpl in Hs. subst s. apply match_here_iff in Hat. congruence.
        -- simpl in Hs. injection Hs as <- Hs. exact (IH pre s g Hs Hat).
Qed.

Lemma append_same_length (pre pre' s s' : string) :
  pre ++ s = pre' ++ s' -> String.length pre = String.length pre' -> pre = pre' /\ s = s'.
Proof.
  revert pre'. induction pre as [|c pre IH]; intros [|c' pre'] Heq Hlen;
    try discriminate; simpl in *.
  - auto.
  - injection Heq as <- Heq. injection Hlen as Hlen.
    destruct (IH pre' Heq Hlen) as [-> ->]. auto.
Qed.

(** The leftmost match has one capture. *)
Lemma github_match_unique url g g' : github_match url g -> github_match url g' -> g = g'.
Proof.
  intros (pre & s & Hs & Hat & Hleft) (pre' & s' & Hs' & Hat' & Hleft').
  pose proof (Hleft pre' s' g' Hs' Hat') as H1.
  pose proof (Hleft' pre s g Hs Hat) as H2.
  rewrite Hs in Hs'. destruct (append_same_length _ _ _ _ Hs' ltac:(lia)) as [_ <-].
  apply match_here_iff in Hat, Hat'. congruence.
Qed.

Lemma github_match_excludes url g : github_match url g -> ~ no_github_match url.
Proof. intros (pre & s & Hs & Hat & _) Hno. exact (Hno pre s g Hs Hat). Qed.

(** C4.  For every URL string, extract_github_repo does not fail.  Either
    the pattern matches somewhere in the URL: then the function returns the
    capture of the leftmost match, which is the path segment after
    github.com/<owner>/ and the only capture there is, and writes nothing.
    Or the pattern matches nowhere: then it returns the URL unchanged and
    writes the warning.  "https://github.com/gitcoinco/web" gives "web", and
    "https://example.com/x" is returned as it is, with the warning. *)
Theorem extract_github_repo_string (url : string) (w : world) :
  ((exists g, github_match url g
              /\ (forall g', github_match url g' -> g' = g)
              /\ extract_github_repo (Some url) w = (Returns g, w))
   \/ (no_github_match url
       /\ extract_github_repo (Some url) w = (Returns url, after w [malformed_warning url])))
  /\ extract_github_repo (Some "https://github.com/gitcoinco/web") w = (Returns "web", w)
  /\ extract_github_repo (Some "https://example.com/x") w
     = (Returns "https://example.com/x", after w [malformed_warning "https://example.com/x"]).
Proof.
  split; [|split; reflexivity].
  unfold extract_github_repo. pose proof (search_spec url) as H.
  destruct (search GITHUB_REPO_PATTERN url) as [g|].
  - left. exists g. split; [exact H|]. split; [|reflexivity].
    intros g' Hg'. exact (github_match_unique url g' g Hg' H).
  - right. split; [exact H|reflexivity].
Qed.

(** * Argument parsing *)

(** C7.  When datetime.strptime rejects the start_date or the end_date
    argument for the format YYYY/MM/DD, the invocation fails with the usage
    error of the first such argument, and the world is as it was: no store
    query, no output, no upload, no mail. *)
Theorem malformed_date_is_usage_error (E : env) (s e : string) (db : database) (w : world) :
  strptime E s DATE_FORMAT = None \/ strptime E e DATE_FORMAT = None ->
  exists name v,
    (name = "start_date" /\ v = s \/ name = "end_date" /\ v = e)
    /\ strptime E v DATE_FORMAT = None
    /\ run_command E [s; e] db w = (Raises (date_error name v), w).
Proof.
  intros H. unfold run_command, parse_positionals, parse_argument, valid_date, bind.
  destruct (strptime E s DATE_FORMAT) as [a|] eqn:Hs.
  - destruct H as [H|H]; [discriminate|].
    exists "end_date", e. rewrite H. cbn. auto.
  - exists "start_date", s. cbn. auto.
Qed.

Lemma well_formed_dates_run_handle (E : env) (s e : string) (a b : datetime) db w :
  strptime E s DATE_FORMAT = Some a -> strptime E e DATE_FORMAT = Some b ->
  run_command E [s; e] db w = handle E (Options a b) db w.
Proof.
  intros Hs He. unfold run_command, parse_positionals, parse_argument, valid_date, bind.
  rewrite Hs, He. reflexivity.
Qed.

(** * The store queries *)

Lemma insert_perm {A} (le : A -> A -> bool) x l : Permutation (insert le x l) (x :: l).
Proof.
  induction l as [|y l IH]; simpl; [reflexivity|].
  destruct (le x y); [reflexivity|].
  rewrite IH. apply perm_swap.
Qed.

Lemma order_by_perm {A} (le : A -> A -> bool) l : Permutation (order_by le l) l.
Proof.
  induction l as [|x l IH]; simpl; [reflexivity|].
  unfold order_by in *. simpl. rewrite insert_perm. now constructor.
Qed.

Section OrderBy.
Context {A : Type} (le : A -> A -> bool) (R : A -> A -> Prop).
Hypothesis le_sound : forall x y, le x y = true -> R x y.
Hypothesis le_total : forall x y, le x y = false -> R y x.
Hypothesis R_trans : forall x y z, R x y -> R y z -> R x z.

Lemma insert_sorted x l : StronglySorted R l -> StronglySorted R (insert le x l).
Proof.
  induction 1 as [|y l Hs IH Hall]; simpl.
  - repeat constructor.
  - destruct (le x y) eqn:Hle.
    + constructor; [now constructor|]. constructor; [auto|].
      eapply Forall_impl; [|exact Hall]. intros z Hz. eauto.
    + constructor; [exact IH|].
      rewrite (insert_perm le x l). constructor; auto.
Qed.

Lemma order_by_sorted l : StronglySorted R (order_by le l).
Proof.
  induction l as [|x l IH]; simpl; [constructor|]. now apply insert_sorted.
Qed.
End OrderBy.

Lemma lex_le_true t1 i1 t2 i2 :
  lex_le t1 i1 t2 i2 = true <-> t1 < t2 \/ (t1 = t2 /\ i1 <= i2).
Proof. unfold lex_le. lia. Qed.

Lemma lex_le_false t1 i1 t2 i2 :
  lex_le t1 i1 t2 i2 = false -> t2 < t1 \/ (t2 = t1 /\ i2 <= i1).
Proof. unfold lex_le. lia. Qed.

Lemma query_bounties_sorted db s e : StronglySorted bounty_before (query_bounties db s e).
Proof.
  apply (order_by_sorted bounty_le); unfold bounty_le, bounty_before.
  - intros x y. apply lex_le_true.
  - intros x y. apply lex_le_false.
  - intros x y z. lia.
Qed.

Lemma query_tips_sorted db s e : StronglySorted tip_before (query_tips db s e).
Proof.
  apply (order_by_sorted tip_le); unfold tip_le, tip_before.
  - intros x y. apply lex_le_true.
  - intros x y. apply lex_le_false.
  - intros x y z. lia.
Qed.

Lemma bounty_filter_true s e b :
  bounty_filter s e b = true <->
  Bounty.network b = "mainnet" /\ Bounty.current_bounty b = true
  /\ s <= Bounty.web3_created b <= e.
Proof.
  unfold bounty_filter. rewrite !andb_true_iff, String.eqb_eq, Bool.eqb_true_iff, !Z.leb_le. tauto.
Qed.

Lemma tip_filter_true s e t :
  tip_filter s e t = true <->
  Tip.network t = "mainnet" /\ s <= Tip.created_on t <= e.
Proof.
  unfold tip_filter. rewrite !andb_true_iff, String.eqb_eq, !Z.leb_le. tauto.
Qed.

Lemma query_bounties_In db s e b :
  In b (query_bounties db s e) <->
  In b (bounty_table db)
  /\ Bounty.network b = "mainnet"
  /\ Bounty.current_bounty b = true
  /\ s <= Bounty.web3_created b <= e.
Proof.
  unfold query_bounties. rewrite <- bounty_filter_true, <- filter_In.
  split; apply Permutation_in; [|symmetry]; apply order_by_perm.
Qed.

Lemma query_tips_In db s e t :
  In t (query_tips db s e) <->
  In t (tip_table db) /\ Tip.network t = "mainnet" /\ s <= Tip.created_on t <= e.
Proof.
  unfold query_tips. rewrite <- tip_filter_true, <- filter_In.
  split; apply Permutation_in; [|symmetry]; apply order_by_perm.
Qed.

(** C8.  The bounty query returns exactly the rows of the table that are on
    "mainnet", are current, and have web3_created within the inclusive range
    from start_date to end_date, in ascending order of web3_created and then
    id; the tip query returns exactly the rows that are on "mainnet" with
    created_on within that range, in ascending order of created_on and then
    id. *)
Theorem store_queries (db : database) (start_date end_date : datetime) :
  (forall b, In b (query_bounties db start_date end_date) <->
             In b (bounty_table db)
             /\ Bounty.network b = "mainnet"
             /\ Bounty.current_bounty b = true
             /\ start_date <= Bounty.web3_created b <= end_date)
  /\ Permutation (query_bounties db start_date end_date)
                 (filter (bounty_filter start_date end_date) (bounty_table db))
  /\ StronglySorted bounty_before (query_bounties db start_date end_date)
  /\ (forall t, In t (query_tips db start_date end_date) <->
                In t (tip_table db)
                /\ Tip.network t = "mainnet"
                /\ start_date <= Tip.created_on t <= end_date)
  /\ Permutation (query_tips db start_date end_date)
                 (filter (tip_filter start_date end_date) (tip_table db))
  /\ StronglySorted tip_before (query_tips db start_date end_date).
Proof.
  split; [intros b; apply query_bounties_In|].
  split; [apply order_by_perm|].
  split; [apply query_bounties_sorted|].
  split; [intros t; apply query_tips_In|].
  split; [apply order_by_perm|].
  apply query_tips_sorted.
Qed.

Lemma after_nil w : after w [] = w.
Proof. destruct w. unfold after. simpl. now rewrite app_nil_r. Qed.

Lemma after_after w e1 e2 : after (after w e1) e2 = after w (e1 ++ e2).
Proof. unfold after. simpl. now rewrite app_assoc. Qed.

Lemma describes_ret {A} (a : A) : describes (ret a) (Returns a, []).
Proof. intros w. simpl. now rewrite after_nil. Qed.

Section Loop.
Context {A S : Type} (key : A -> Z).
Variable body : S -> A -> M S.
Variable upd : S -> A -> S.
Variable out : A -> list (list value).
Hypothesis body_spec :
  forall s x w, body s x w = (Returns (upd s x), World (csvfile w ++ out x) (trace w)).

Lemma for_each_S n g s w :
  for_each (Datatypes.S n) key g body s w =
  match itermerge_next key g w with
  | (Returns None, w') => (Returns s, w')
  | (Returns (Some (x, g')), w') => for_each n key g' body (upd s x)
                                      (World (csvfile w' ++ out x) (trace w'))
  | (Raises e, w') => (Raises e, w')
  end.
Proof.
  cbn [for_each]. unfold bind at 1.
  destruct (itermerge_next key g w) as [[[[x g']|]|e] w']; try reflexivity.
  unfold bind. now rewrite body_spec.
Qed.

(** A held head is an input whose first computation is already done. *)
Lemma for_each_held_a n a la hb lb s w :
  for_each n key (MergeGen (Some a) la hb lb) body s w
  = for_each n key (MergeGen None (ret a :: la) hb lb) body s w.
Proof. destruct n; reflexivity. Qed.

Lemma for_each_held_b n ha la b lb s w :
  for_each n key (MergeGen ha la (Some b) lb) body s w
  = for_each n key (MergeGen ha la None (ret b :: lb)) body s w.
Proof.
  destruct n; [reflexivity|]. cbn [for_each]. unfold bind at 1 3.
  unfold itermerge_next, bind. cbn [head_a gen_a head_b gen_b].
  destruct (fill ha la w) as [[pa|e] w1]; reflexivity.
Qed.

Variable P : event -> Prop.
Variable Ex : exn -> Prop.

Lemma loop_post_step da db da' db' s w x evs r :
  loop_post key upd out P Ex da' db' (upd s x) (World (csvfile (after w evs) ++ out x) (trace (after w evs))) r ->
  Forall P evs ->
  all_ok da db = all_ok da' db' ->
  (all_ok da db = true ->
   merged key (values da) (values db) = x :: merged key (values da') (values db')) ->
  loop_post key upd out P Ex da db s w r.
Proof.
  intros (items & warns & Hw & HP & Hres) Hevs Hok Hm.
  exists (x :: items), (evs ++ warns)%list. split; [|split].
  - rewrite Hw. unfold after. cbn. now rewrite <- !app_assoc.
  - apply Forall_app. now split.
  - rewrite Hok in *. destruct (all_ok da' db').
    + destruct Hres as [Hr ->]. split; [exact Hr|]. now rewrite Hm.
    + exact Hres.
Qed.

Lemma loop_post_raise da db s w e evs :
  all_ok da db = false -> Ex e -> Forall P evs ->
  loop_post key upd out P Ex da db s w (Raises e, after w evs).
Proof.
  intros Hok He HP. exists [], evs. cbn. rewrite app_nil_r, Hok. eauto.
Qed.

Lemma merged_nil_l (l : list A) : merged key [] l = l.
Proof. destruct l; reflexivity. Qed.

Lemma merged_nil_r (l : list A) : merged key l [] = l.
Proof. destruct l; reflexivity. Qed.

Lemma merged_cons a l1 b l2 :
  merged key (a :: l1) (b :: l2)
  = if key a <=? key b then a :: merged key l1 (b :: l2) else b :: merged key (a :: l1) l2.
Proof. reflexivity. Qed.

Lemma loop_normal n :
  forall da db la lb s w,
    Forall2 describes la da -> Forall2 describes lb db ->
    Forall (good P Ex) da -> Forall (good P Ex) db ->
    (List.length la + List.length lb < n)%nat ->
    loop_post key upd out P Ex da db s w (for_each n key (MergeGen None la None lb) body s w).
Proof.
  induction n as [|n IH]; intros da db la lb s w Hla Hlb Hga Hgb Hn; [lia|].
  rewrite for_each_S.
  destruct Hla as [|t d la' da' Ht Hla]; destruct Hlb as [|u d2 lb' db' Hu Hlb].
  - cbn. exists [], []. cbn. rewrite !app_nil_r. destruct w; auto.
  - unfold itermerge_next, fill, bind, ret. cbn [head_a gen_a head_b gen_b fst snd].
    rewrite (Hu w). inversion Hgb as [|? ? [HP He] Hgb']; subst.
    destruct d2 as [[b|e] evs]; cbn [fst snd] in *.
    + cbn. eapply loop_post_step with (da' := []) (db' := db') (x := b) (evs := evs); auto.
      * apply IH; auto. cbn in *. lia.
      * intros _. unfold values. cbn. now rewrite !merged_nil_l.
    + apply loop_post_raise; auto.
  - unfold itermerge_next, fill, bind, ret. cbn [head_a gen_a head_b gen_b fst snd].
    rewrite (Ht w). inversion Hga as [|? ? [HP He] Hga']; subst.
    destruct d as [[a|e] evs]; cbn [fst snd] in *.
    + cbn. eapply loop_post_step with (da' := da') (db' := []) (x := a) (evs := evs); auto.
      * apply IH; auto. cbn in *. lia.
      * intros _. unfold values. cbn. now rewrite !merged_nil_r.
    + apply loop_post_raise; auto.
  - unfold itermerge_next, fill, bind, ret. cbn [head_a gen_a head_b gen_b fst snd].
    rewrite (Ht w). inversion Hga as [|? ? [HP He] Hga']; subst.
    inversion Hgb as [|? ? [HP2 He2] Hgb']; subst.
    destruct d as [[a|e] evs]; cbn [fst snd] in *.
    2:{ apply loop_post_raise; auto. }
    rewrite (Hu (after w evs)), after_after.
    destruct d2 as [[b|e] evs2]; cbn [fst snd] in *.
    2:{ apply loop_post_raise; auto.
        - unfold all_ok. cbn. now rewrite andb_false_r.
        - apply Forall_app. now split. }
    destruct (key a <=? key b) eqn:Hk; cbn [fst snd].
    + rewrite for_each_held_b.
      eapply loop_post_step with (da' := da') (db' := (Returns b, []) :: db') (x := a) (evs := (evs ++ evs2)%list).
      * apply IH; auto.
        -- constructor; [apply describes_ret | exact Hlb].
        -- constructor; [split; cbn; auto | exact Hgb'].
        -- cbn in *. lia.
      * apply Forall_app. now split.
      * reflexivity.
      * intros _. unfold values. cbn. now rewrite Hk.
    + rewrite for_each_held_a.
      eapply loop_post_step with (da' := (Returns a, []) :: da') (db' := db') (x := b) (evs := (evs ++ evs2)%list).
      * apply IH; auto.
        -- constructor; [apply describes_ret | exact Hla].
        -- constructor; [split; cbn; auto | exact Hga'].
        -- cbn in *. lia.
      * apply Forall_app. now split.
      * reflexivity.
      * intros _. unfold values. cbn. now rewrite Hk.
Qed.
End Loop.

(** * The merged sequence *)

Section Merged.
Context {A : Type} (key : A -> Z).

Lemma merged_perm l1 : forall l2, Permutation (merged key l1 l2) (l1 ++ l2).
Proof.
  induction l1 as [|a l1 IH1]; intros l2.
  - now rewrite merged_nil_l.
  - induction l2 as [|b l2 IH2].
    + now rewrite merged_nil_r, app_nil_r.
    + rewrite merged_cons. destruct (key a <=? key b).
      * cbn. constructor. apply IH1.
      * rewrite IH2. apply Permutation_middle.
Qed.

Lemma merged_length l1 l2 :
  List.length (merged key l1 l2) = (List.length l1 + List.length l2)%nat.
Proof. rewrite (Permutation_length (merged_perm l1 l2)). apply length_app. Qed.

Lemma merged_In x l1 l2 : In x (merged key l1 l2) <-> In x l1 \/ In x l2.
Proof.
  rewrite <- in_app_iff. split; apply Permutation_in; [|symmetry]; apply merged_perm.
Qed.

Lemma merged_HdRel x l1 l2 :
  HdRel (fun u v => key u <= key v) x l1 -> HdRel (fun u v => key u <= key v) x l2 ->
  HdRel (fun u v => key u <= key v) x (merged key l1 l2).
Proof.
  intros H1 H2. destruct l1 as [|a l1]; [now rewrite merged_nil_l|].
  destruct l2 as [|b l2]; [now rewrite merged_nil_r|].
  rewrite merged_cons. inversion H1; inversion H2; subst.
  destruct (key a <=? key b); now constructor.
Qed.

Lemma merged_sorted l1 :
  forall l2, sorted_by key l1 -> sorted_by key l2 -> sorted_by key (merged key l1 l2).
Proof.
  unfold sorted_by.
  induction l1 as [|a l1 IH1]; intros l2 H1 H2.
  - now rewrite merged_nil_l.
  - induction l2 as [|b l2 IH2].
    + now rewrite merged_nil_r.
    + rewrite merged_cons. inversion H1; inversion H2; subst.
      destruct (key a <=? key b) eqn:Hk.
      * constructor; [now apply IH1|].
        apply merged_HdRel; [assumption|]. constructor. lia.
      * constructor; [now apply IH2|].
        apply merged_HdRel; [|assumption]. constructor. lia.
Qed.

Lemma sorted_by_head a l x : sorted_by key (a :: l) -> In x (a :: l) -> key a <= key x.
Proof.
  intros Hs Hin. apply Sorted_StronglySorted in Hs.
  - inversion Hs as [|? ? _ Hall]; subst. destruct Hin as [<-|Hin]; [lia|].
    rewrite Forall_forall in Hall. now apply Hall.
  - intros u v z. lia.
Qed.

Lemma sorted_by_tail a l : sorted_by key (a :: l) -> sorted_by key l.
Proof. intros H. now inversion H. Qed.

(** With [p] telling the elements of the first input from those of the
    second: an element of the first input that comes after an element of
    the second has a strictly larger key. *)
Lemma merged_tie (p : A -> bool) l1 :
  forall l2,
    sorted_by key l1 -> sorted_by key l2 ->
    Forall (fun x => p x = true) l1 -> Forall (fun y => p y = false) l2 ->
    forall pre y post x,
      merged key l1 l2 = (pre ++ y :: post)%list ->
      p y = false -> In x post -> p x = true -> key y < key x.
Proof.
  induction l1 as [|a l1 IH1]; intros l2 H1 H2 P1 P2 pre y post x Hm Hy Hin Hx.
  - rewrite merged_nil_l in Hm. subst l2. rewrite Forall_forall in P2.
    rewrite (P2 x) in Hx; [discriminate|]. apply in_or_app. right. now right.
  - induction l2 as [|b l2 IH2] in pre, H2, P2, Hm |- *.
    + rewrite merged_nil_r in Hm. rewrite Forall_forall in P1.
      rewrite (P1 y) in Hy; [discriminate|]. rewrite Hm. apply in_or_app. right. now left.
    + rewrite merged_cons in Hm. destruct (key a <=? key b) eqn:Hk.
      * destruct pre as [|z pre]; [rewrite app_nil_l in Hm | rewrite <- app_comm_cons in Hm];
          injection Hm as <- Hm.
        -- inversion P1; subst. congruence.
        -- apply (IH1 (b :: l2)) with (pre := pre) (post := post); auto.
           ++ now apply sorted_by_tail in H1.
           ++ now inversion P1.
      * destruct pre as [|z pre]; [rewrite app_nil_l in Hm | rewrite <- app_comm_cons in Hm];
          injection Hm as <- Hm.
        -- subst post. apply (merged_In x (a :: l1) l2) in Hin. destruct Hin as [Hin|Hin].
           ++ pose proof (sorted_by_head _ _ _ H1 Hin). lia.
           ++ inversion P2 as [|? ? _ P2']; subst. rewrite Forall_forall in P2'.
              rewrite (P2' x Hin) in Hx. discriminate.
        -- apply IH2 with (pre := pre); auto.
           ++ now apply sorted_by_tail in H2.
           ++ now inversion P2.
Qed.

(** The generator over two sequences that are already there produces
    [merged]. *)
Lemma to_list_itermerge (S1 S2 : list A) (w : world) :
  to_list key (itermerge (iter S1) (iter S2)) w = (Returns (merged key S1 S2), w).
Proof.
  unfold to_list.
  pose (da := map (fun x : A => (Returns x, @nil event)) S1).
  pose (db := map (fun x : A => (Returns x, @nil event)) S2).
  assert (Hd : forall l, Forall2 describes (iter l) (map (fun x : A => (Returns x, @nil event)) l)).
  { induction l; cbn; constructor; auto. apply describes_ret. }
  assert (Hg : forall l, Forall (good (fun _ => False) (fun _ => False))
                           (map (fun x : A => (Returns x, @nil event)) l)).
  { induction l; cbn; constructor; auto. split; cbn; auto. }
  assert (Hv : forall l, values (map (fun x : A => (Returns x, @nil event)) l) = l).
  { induction l; cbn; [reflexivity|]. unfold values in *. cbn. now f_equal. }
  assert (Hok : forall l, forallb is_ok (map (fun x : A => (Returns x, @nil event)) l) = true).
  { induction l; cbn; auto. }
  destruct (loop_normal key (fun acc item => ret (acc ++ [item])%list)
              (fun acc item => (acc ++ [item])%list) (fun _ => [])
              ltac:(intros s x w0; cbn; rewrite app_nil_r; now destruct w0)
              (fun _ => False) (fun _ => False)
              (Datatypes.S (gen_size (itermerge (iter S1) (iter S2))))
              da db (iter S1) (iter S2) [] w (Hd S1) (Hd S2) (Hg S1) (Hg S2))
    as (items & warns & Hw & HP & Hres).
  { unfold gen_size, itermerge. cbn. lia. }
  unfold all_ok in Hres. subst da db. rewrite !Hok, !Hv in Hres. cbn [andb] in Hres.
  destruct Hres as [Hr Hi].
  assert (warns = []) by (destruct warns; [reflexivity | now inversion HP]). subst warns.
  assert (Hf : flat_map (fun _ : A => @nil (list value)) items = []).
  { clear. induction items; cbn; auto. }
  rewrite Hf, !app_nil_r in Hw.
  assert (Hfold : forall (l acc : list A), fold_left (fun acc item => (acc ++ [item])%list) l acc
                                = (acc ++ l)%list).
  { clear. induction l as [|x l IH]; intros acc; cbn; [now rewrite app_nil_r|].
    rewrite IH, <- app_assoc. reflexivity. }
  rewrite Hfold in Hr. rewrite app_nil_l in Hr.
  unfold itermerge in *.
  destruct (for_each _ key _ _ [] w) as [o w'] eqn:Hrun.
  cbn in Hr, Hw. subst o w'. f_equal; [now rewrite Hi|]. now destruct w.
Qed.
End Merged.

(** C1.  For two sequences of normalized records that are each sorted
    ascending by created_on, the generator itermerge with that key produces a
    sequence that is sorted ascending by created_on, is a permutation of the
    two inputs together, and has the sum of their lengths. *)
Theorem itermerge_sorted_permutation (S1 S2 : list ActivityRecord.t) (w : world) :
  sorted_by created_on_key S1 -> sorted_by created_on_key S2 ->
  exists out,
    to_list created_on_key (itermerge (iter S1) (iter S2)) w = (Returns out, w)
    /\ sorted_by created_on_key out
    /\ Permutation out (S1 ++ S2)
    /\ List.length out = (List.length S1 + List.length S2)%nat.
Proof.
  intros H1 H2. exists (merged created_on_key S1 S2). split; [|split; [|split]].
  - apply to_list_itermerge.
  - now apply merged_sorted.
  - apply merged_perm.
  - apply merged_length.
Qed.

(** C2.  For two sorted inputs, the first of formatted bounties and the
    second of formatted tips: a bounty and a tip with equal created_on appear
    in the merged sequence in that order, and a bounty that comes after a tip
    has a strictly later created_on. *)
Theorem itermerge_tie_break (S1 S2 : list ActivityRecord.t) (w : world) :
  sorted_by created_on_key S1 -> sorted_by created_on_key S2 ->
  Forall (fun a => ActivityRecord.type a = "bounty") S1 ->
  Forall (fun b => ActivityRecord.type b = "tip") S2 ->
  exists out,
    to_list created_on_key (itermerge (iter S1) (iter S2)) w = (Returns out, w)
    /\ (forall a b, In a S1 -> In b S2 ->
                    ActivityRecord.created_on a = ActivityRecord.created_on b ->
                    exists l1 l2 l3, out = (l1 ++ a :: l2 ++ b :: l3)%list)
    /\ (forall l1 b l3 a, out = (l1 ++ b :: l3)%list ->
                          ActivityRecord.type b = "tip" ->
                          In a l3 -> ActivityRecord.type a = "bounty" ->
                          ActivityRecord.created_on b < ActivityRecord.created_on a).
Proof.
  intros H1 H2 T1 T2. exists (merged created_on_key S1 S2).
  assert (P1 : Forall (fun x => is_bounty x = true) S1).
  { eapply Forall_impl; [|exact T1]. intros a Ha. unfold is_bounty. now rewrite Ha. }
  assert (P2 : Forall (fun x => is_bounty x = false) S2).
  { eapply Forall_impl; [|exact T2]. intros a Ha. unfold is_bounty. now rewrite Ha. }
  assert (Hlate : forall l1 b l3 a, merged created_on_key S1 S2 = (l1 ++ b :: l3)%list ->
                    is_bounty b = false -> In a l3 -> is_bounty a = true ->
                    ActivityRecord.created_on b < ActivityRecord.created_on a).
  { intros l1 b l3 a Hm Hb Hin Ha.
    exact (merged_tie created_on_key is_bounty S1 S2 H1 H2 P1 P2 l1 b l3 a Hm Hb Hin Ha). }
  split; [apply to_list_itermerge|]. split.
  - intros a b Ha Hb Hk.
    assert (Hbin : In b (merged created_on_key S1 S2)) by (apply merged_In; now right).
    assert (Hain : In a (merged created_on_key S1 S2)) by (apply merged_In; now left).
    apply in_split in Hbin. destruct Hbin as (pre & post & Hm).
    rewrite Forall_forall in P1, P2.
    rewrite Hm in Hain. apply in_app_or in Hain. destruct Hain as [Hpre|[Heq|Hpost]].
    + apply in_split in Hpre. destruct Hpre as (l1 & l2 & ->).
      exists l1, l2, post. rewrite Hm, <- app_assoc. reflexivity.
    + subst a. pose proof (P1 b Ha). pose proof (P2 b Hb). congruence.
    + specialize (Hlate pre b post a Hm (P2 b Hb) Hpost (P1 a Ha)). lia.
  - intros l1 b l3 a Hm Tb Hin Ta. apply (Hlate l1 b l3 a Hm); auto.
    + unfold is_bounty. now rewrite Tb.
    + unfold is_bounty. now rewrite Ta.
Qed.

Ltac run_format H :=
  unfold outcome_of, format_bounty, format_tip, extract_github_repo, bind, stdout_write, emit,
    ret, raise, after, good, is_ok;
  rewrite ?H; cbn [truthy];
  repeat match goal with
         | |- context [search GITHUB_REPO_PATTERN ?u] => destruct (search GITHUB_REPO_PATTERN u)
         end;
  cbn; rewrite ?app_nil_r.

Lemma format_bounty_describes b : describes (format_bounty b) (outcome_of (format_bounty b)).
Proof.
  intros [rows tr]. destruct (Bounty.github_url b) as [u|] eqn:Hu;
    run_format Hu; reflexivity.
Qed.

Lemma format_tip_describes t : describes (format_tip t) (outcome_of (format_tip t)).
Proof.
  intros [rows tr]. destruct (Tip.github_url t) as [[|c u]|] eqn:Hu;
    run_format Hu; reflexivity.
Qed.

Lemma format_bounty_good b : good warning type_error (outcome_of (format_bounty b)).
Proof.
  destruct (Bounty.github_url b) as [u|] eqn:Hu;
    run_format Hu; split; auto; repeat constructor.
Qed.

Lemma format_tip_good t : good warning type_error (outcome_of (format_tip t)).
Proof.
  destruct (Tip.github_url t) as [[|c u]|] eqn:Hu;
    run_format Hu; split; auto; repeat constructor.
Qed.

Lemma format_tip_ok t : is_ok (outcome_of (format_tip t)) = true.
Proof.
  destruct (Tip.github_url t) as [[|c u]|] eqn:Hu;
    run_format Hu; reflexivity.
Qed.

Lemma format_bounty_ok b :
  is_ok (outcome_of (format_bounty b))
  = match Bounty.github_url b with Some _ => true | None => false end.
Proof.
  destruct (Bounty.github_url b) as [u|] eqn:Hu;
    run_format Hu; reflexivity.
Qed.

Lemma handle_body_spec s x w :
  handle_body s x w = (Returns true, World (csvfile w ++ [row_of x]) (trace w)).
Proof. reflexivity. Qed.

Lemma writeheader_spec w :
  writeheader fieldnames w = (Returns tt, World (csvfile w ++ [header_row]) (trace w)).
Proof. reflexivity. Qed.

Lemma handle_unfold E opts db w :
  handle E opts db w =
  let g := itermerge (imap format_bounty (query_bounties db (start_date opts) (end_date opts)))
                     (imap format_tip (query_tips db (start_date opts) (end_date opts))) in
  match for_each (S (gen_size g)) created_on_key g handle_body false
          (World [header_row] (trace w ++ queries)) with
  | (Returns has_rows, w1) => finish E opts has_rows w1
  | (Raises e, w1) => (Raises e, w1)
  end.
Proof.
  destruct w as [rows tr]. unfold handle.
  set (g := itermerge _ _).
  unfold bind at 1 2 3 4. unfold emit, csv_new. cbn [csvfile trace fst snd].
  rewrite writeheader_spec. cbn [csvfile trace app].
  rewrite <- app_assoc. change ([DbQuery "Bounty"] ++ [DbQuery "Tip"])%list with queries.
  unfold bind at 1. fold handle_body.
  destruct (for_each (S (gen_size g)) created_on_key g handle_body false _) as [[b|e] w1];
    reflexivity.
Qed.

(** The end of a run, after the loop: what [report] says. *)
Lemma finish_spec E opts rows tr :
  finish E opts (match rows with _ :: _ :: _ => true | _ => false end) (World rows tr)
  = (fst (report E opts rows), World rows (tr ++ snd (report E opts rows))).
Proof.
  unfold finish, report, hyphenated, py_strftime, bind.
  destruct (strftime E (start_date opts) DATE_FORMAT_HYPHENATED) as [start|];
    [|cbn; now rewrite app_nil_r].
  cbn [ret raise fst snd].
  destruct (strftime E (end_date opts) DATE_FORMAT_HYPHENATED) as [end_|];
    [|cbn; now rewrite app_nil_r].
  cbn [ret raise fst snd].
  destruct rows as [|r [|r' rows]]; try reflexivity.
  unfold upload_to_s3, send_mail, external, stored, mailed, getvalue, bind.
  cbn [ret raise fst snd csvfile trace].
  fold (document E (r :: r' :: rows)). fold (report_key E start end_).
  destruct (connect_s3 E _ _); cbn [andb ret raise fst snd]; [|now rewrite app_nil_r].
  destruct (get_bucket E _); cbn [andb ret raise fst snd]; [|now rewrite app_nil_r].
  destruct (set_contents_from_string E _ _ _); cbn [andb ret raise emit fst snd trace csvfile];
    [|now rewrite app_nil_r].
  destruct (generate_url E _ _ _) as [url|]; cbn [ret raise fst snd]; [|reflexivity].
  destruct (mail_transport E _ _ _ _ _ _); cbn [ret raise emit fst snd trace csvfile];
    [|reflexivity].
  unfold stdout_write, emit. cbn [fst snd trace csvfile].
  rewrite <- !app_assoc. reflexivity.
Qed.

Lemma imap_describes_bounties bs : Forall2 describes (imap format_bounty bs) (bounty_outcomes bs).
Proof. induction bs; cbn; constructor; auto. apply format_bounty_describes. Qed.

Lemma imap_describes_tips ts : Forall2 describes (imap format_tip ts) (tip_outcomes ts).
Proof. induction ts; cbn; constructor; auto. apply format_tip_describes. Qed.

Lemma formatted_bounties_good bs : Forall (good warning type_error) (bounty_outcomes bs).
Proof. induction bs; cbn; constructor; auto. apply format_bounty_good. Qed.

Lemma formatted_tips_good ts : Forall (good warning type_error) (tip_outcomes ts).
Proof. induction ts; cbn; constructor; auto. apply format_tip_good. Qed.

Lemma flat_map_singleton {X Y} (f : X -> Y) l : flat_map (fun x => [f x]) l = map f l.
Proof. induction l; cbn; [reflexivity | now f_equal]. Qed.

Lemma fold_left_true {X} (l : list X) (s : bool) :
  fold_left (fun _ _ => true) l s = match l with [] => s | _ => true end.
Proof.
  destruct l as [|x l]; [reflexivity|]. cbn. induction l; cbn; auto.
Qed.

(** Every run of [handle]: the header, the rows of the items that the loop
    got to, the two queries, the events of the formatters, and then either a
    TypeError, or the end of the run as [report] gives it. *)
Lemma handle_spec_with (P : event -> Prop) E opts db w :
  let bs := query_bounties db (start_date opts) (end_date opts) in
  let ts := query_tips db (start_date opts) (end_date opts) in
  Forall (good P type_error) (bounty_outcomes bs) ->
  Forall (good P type_error) (tip_outcomes ts) ->
  exists items warns,
    Forall P warns
    /\ if all_ok (bounty_outcomes bs) (tip_outcomes ts)
       then items = merged created_on_key (values (bounty_outcomes bs))
                      (values (tip_outcomes ts))
            /\ handle E opts db w
               = (fst (report E opts (header_row :: map row_of items)),
                  World (header_row :: map row_of items)
                        (trace w ++ queries ++ warns
                         ++ snd (report E opts (header_row :: map row_of items))))
       else handle E opts db w
            = (Raises TypeError,
               World (header_row :: map row_of items) (trace w ++ queries ++ warns)).
Proof.
  intros bs ts Hga Hgb. rewrite handle_unfold. cbv zeta. fold bs ts.
  destruct (loop_normal created_on_key handle_body (fun _ _ => true) (fun x => [row_of x])
              handle_body_spec P type_error
              (S (gen_size (itermerge (imap format_bounty bs) (imap format_tip ts))))
              (bounty_outcomes bs) (tip_outcomes ts)
              (imap format_bounty bs) (imap format_tip ts) false
              (World [header_row] (trace w ++ queries))
              (imap_describes_bounties bs) (imap_describes_tips ts) Hga Hgb)
    as (items & warns & Hw & HP & Hres).
  { unfold gen_size, itermerge. cbn. lia. }
  exists items, warns. split; [exact HP|].
  unfold itermerge in *.
  destruct (for_each _ created_on_key _ handle_body false _) as [o w1].
  cbn [fst snd csvfile trace] in Hw, Hres. subst w1.
  rewrite flat_map_singleton. cbn [app].
  destruct (all_ok (bounty_outcomes bs) (tip_outcomes ts)).
  - destruct Hres as [-> Hi]. split; [exact Hi|].
    rewrite fold_left_true.
    pose proof (finish_spec E opts (header_row :: map row_of items)
                  ((trace w ++ queries) ++ warns)) as Hf.
    destruct items as [|x items]; cbn [map] in *; rewrite Hf; now rewrite <- !app_assoc.
  - destruct Hres as (e & -> & ->). rewrite <- app_assoc. reflexivity.
Qed.

Lemma handle_spec E opts db w :
  let bs := query_bounties db (start_date opts) (end_date opts) in
  let ts := query_tips db (start_date opts) (end_date opts) in
  exists items warns,
    Forall warning warns
    /\ if all_ok (bounty_outcomes bs) (tip_outcomes ts)
       then items = merged created_on_key (values (bounty_outcomes bs))
                      (values (tip_outcomes ts))
            /\ handle E opts db w
               = (fst (report E opts (header_row :: map row_of items)),
                  World (header_row :: map row_of items)
                        (trace w ++ queries ++ warns
                         ++ snd (report E opts (header_row :: map row_of items))))
       else handle E opts db w
            = (Raises TypeError,
               World (header_row :: map row_of items) (trace w ++ queries ++ warns)).
Proof.
  apply handle_spec_with; [apply formatted_bounties_good | apply formatted_tips_good].
Qed.

(** The shapes of the end of a run. *)
Lemma report_cases E opts rows :
  report E opts rows = (Raises ValueError, [])
  \/ report E opts rows = (Raises BotoError, [])
  \/ exists start end_,
       hyphenated E (start_date opts) = Some start
       /\ hyphenated E (end_date opts) = Some end_
       /\ ((List.length rows <= 1)%nat
           /\ report E opts rows = (Returns tt, [no_activity_message start end_])
           \/ (1 < List.length rows)%nat
              /\ stored E start end_ rows = true
              /\ (report E opts rows = (Raises BotoError, [report_upload E start end_ rows])
                  \/ exists url,
                       generate_url E (S3_REPORT_BUCKET E) (report_key E start end_)
                         REPORT_URL_EXPIRATION_TIME = Some url
                       /\ (mailed E start end_ url = false
                           /\ report E opts rows
                              = (Raises MailError, [report_upload E start end_ rows])
                           \/ mailed E start end_ url = true
                              /\ report E opts rows
                                 = (Returns tt,
                                    [report_upload E start end_ rows;
                                     report_mail E start end_ url;
                                     report_sent_message E start end_])))).
Proof.
  unfold report.
  destruct (hyphenated E (start_date opts)) as [start|]; [|now left].
  destruct (hyphenated E (end_date opts)) as [end_|]; [|now left].
  destruct rows as [|r [|r' rows]].
  - right; right. exists start, end_. split; [reflexivity|]. split; [reflexivity|].
    left. split; [cbn; lia | reflexivity].
  - right; right. exists start, end_. split; [reflexivity|]. split; [reflexivity|].
    left. split; [cbn; lia | reflexivity].
  - destruct (stored E start end_ (r :: r' :: rows)) eqn:Hst; [|right; now left].
    right; right. exists start, end_. split; [reflexivity|]. split; [reflexivity|].
    right. split; [cbn; lia|]. split; [exact Hst|].
    destruct (generate_url E _ _ _) as [url|]; [|now left].
    right. exists url. split; [reflexivity|].
    destruct (mailed E start end_ url); [right | left]; auto.
Qed.

Lemma warnings_no_mail warns : Forall warning warns -> filter is_mail warns = [].
Proof.
  induction 1 as [|ev l Hev _ IH]; [reflexivity|]. cbn. rewrite IH.
  destruct ev as [| [|] | |]; cbn in *; try discriminate; reflexivity.
Qed.

Lemma warnings_no_upload warns : Forall warning warns -> filter is_upload warns = [].
Proof.
  induction 1 as [|ev l Hev _ IH]; [reflexivity|]. cbn. rewrite IH.
  destruct ev as [| [|] | |]; cbn in *; try discriminate; reflexivity.
Qed.

Lemma concat_empty_cons (x : string) (xs : list string) :
  String.concat "" (x :: xs) = x ++ String.concat "" xs.
Proof. destruct xs; cbn; [now rewrite append_empty_r | reflexivity]. Qed.

(** C5.  After every run of handle, completed or not and whatever the
    number of data rows, the document begins with the header row, which is
    the 14 field names in their order. *)
Theorem header_row_always (E : env) (opts : options) (db : database) (w : world) :
  exists rows,
    csvfile (snd (handle E opts db w)) = header_row :: rows
    /\ header_row
       = map VStr [ "type"; "created_on"; "last_activity"; "amount"; "denomination";
                    "amount_eth"; "amount_usdt"; "from_address"; "claimee_address"; "repo";
                    "from_username"; "claimee_github_username"; "status"; "comments" ]
    /\ List.length header_row = 14%nat
    /\ fst (getvalue E (snd (handle E opts db w)))
       = Returns (csv_line E header_row ++ document E rows).
Proof.
  destruct (handle_spec E opts db w) as (items & warns & _ & H). cbv zeta in H.
  exists (map row_of items).
  assert (Hc : csvfile (snd (handle E opts db w)) = header_row :: map row_of items).
  { destruct (all_ok _ _); [destruct H as [_ H]|]; rewrite H; reflexivity. }
  repeat split; auto.
  unfold getvalue. cbn [fst]. rewrite Hc. cbn [map]. now rewrite concat_empty_cons.
Qed.

(** * No activity *)

Lemma handle_no_records (E : env) (opts : options) (db : database) (w : world) :
  query_bounties db (start_date opts) (end_date opts) = [] ->
  query_tips db (start_date opts) (end_date opts) = [] ->
  handle E opts db w
  = (fst (report E opts [header_row]),
     World [header_row] (trace w ++ queries ++ snd (report E opts [header_row]))).
Proof.
  intros Hb Ht. rewrite handle_unfold, Hb, Ht. cbn.
  rewrite (finish_spec E opts [header_row]). now rewrite <- app_assoc.
Qed.


(** * The mail *)

(** C6, amended.  In a run of handle that completes, a mail is sent if and
    only if at least one data row was written, together with the upload of
    the document; in a run that stops with an exception no mail is sent,
    also when data rows were written.  The mail goes from CONTACT_EMAIL to
    CONTACT_EMAIL, its subject is "Gitcoin Activity report from <start> to
    <end>" with both dates hyphenated, and its HTML body is one anchor whose
    href and text are the URL that the upload returned. *)
Theorem report_mail_iff_rows_when_completed (E : env) (opts : options) (db : database)
    (w : world) :
  exists rows evs,
    snd (handle E opts db w) = World (header_row :: rows) (trace w ++ evs)
    /\ match fst (handle E opts db w) with
       | Returns _ =>
           (rows <> []
            /\ exists start end_ url,
                 strftime E (start_date opts) DATE_FORMAT_HYPHENATED = Some start
                 /\ strftime E (end_date opts) DATE_FORMAT_HYPHENATED = Some end_
                 /\ generate_url E (S3_REPORT_BUCKET E) (report_key E start end_)
                      REPORT_URL_EXPIRATION_TIME = Some url
                 /\ filter is_mail evs
                    = [SendMail (CONTACT_EMAIL E) (CONTACT_EMAIL E)
                         ("Gitcoin Activity report from " ++ start ++ " to " ++ end_)
                         ""
                         ("<a href=" ++ dquote ++ url ++ dquote ++ ">" ++ url ++ "</a>")
                         false]
                 /\ filter is_upload evs = [report_upload E start end_ (header_row :: rows)])
           \/ (rows = [] /\ filter is_mail evs = [] /\ filter is_upload evs = [])
       | Raises _ => filter is_mail evs = []
       end.
Proof.
  destruct (handle_spec E opts db w) as (items & warns & HP & H). cbv zeta in H.
  exists (map row_of items).
  destruct (all_ok _ _).
  - destruct H as [_ H].
    exists (queries ++ warns ++ snd (report E opts (header_row :: map row_of items)))%list.
    rewrite H. cbn [fst snd]. split; [reflexivity|].
    rewrite !filter_app, (warnings_no_mail _ HP), (warnings_no_upload _ HP).
    cbn [queries filter is_mail is_upload app].
    destruct (report_cases E opts (header_row :: map row_of items))
      as [Hr|[Hr|(start & end_ & Hs & He & [[Hlen Hr]|(Hlen & Hst & [Hr|(url & Hu & [[Hm Hr]|[Hm Hr]])])])]];
      rewrite Hr; cbn [fst snd]; try reflexivity.
    + right. destruct items; [auto | cbn in Hlen; lia].
    + left. split; [destruct items; [cbn in Hlen; lia | discriminate]|].
      exists start, end_, url. auto.
  - exists (queries ++ warns)%list. rewrite H. cbn [fst snd].
    split; [reflexivity|].
    now rewrite !filter_app, (warnings_no_mail _ HP).
Qed.

Lemma all_ok_false_of_no_url bs ts b :
  In b bs -> Bounty.github_url b = None ->
  all_ok (bounty_outcomes bs) (tip_outcomes ts) = false.
Proof.
  intros Hin Hu. unfold all_ok. apply andb_false_iff. left.
  apply not_true_is_false. intros Hall. rewrite forallb_forall in Hall.
  specialize (Hall (outcome_of (format_bounty b))).
  rewrite format_bounty_ok, Hu in Hall. discriminate Hall.
  unfold bounty_outcomes. apply (in_map (fun b => outcome_of (format_bounty b))). exact Hin.
Qed.

(** C10.  format_bounty hands github_url to extract_github_repo whatever
    it is, and so returns exactly when the URL is a string; format_tip never
    fails and gives an empty repo, without extraction, for a URL that is None
    or empty.  A bounty of the range whose URL is None makes format_bounty
    raise TypeError, and the run of handle stops with that TypeError, without
    upload and without mail. *)
Theorem bounty_without_url_aborts (E : env) (opts : options) (db : database) (w : world)
    (b : Bounty.t) :
  In b (query_bounties db (start_date opts) (end_date opts)) ->
  Bounty.github_url b = None ->
  (forall w0, format_bounty b w0 = (Raises TypeError, w0))
  /\ fst (handle E opts db w) = Raises TypeError
  /\ (exists rows warns,
         snd (handle E opts db w) = World (header_row :: rows) (trace w ++ queries ++ warns)
         /\ filter is_upload warns = [] /\ filter is_mail warns = [])
  /\ (forall b' w0, (exists r w1, format_bounty b' w0 = (Returns r, w1))
                    <-> (exists u, Bounty.github_url b' = Some u))
  /\ (forall b' u w0, Bounty.github_url b' = Some u ->
                      exists r, format_bounty b' w0 = (Returns r, snd (extract_github_repo (Some u) w0))
                                /\ fst (extract_github_repo (Some u) w0)
                                   = Returns (ActivityRecord.repo r))
  /\ (forall t w0, truthy (Tip.github_url t) = false ->
                   exists r, format_tip t w0 = (Returns r, w0) /\ ActivityRecord.repo r = "")
  /\ (forall t w0, exists r w1, format_tip t w0 = (Returns r, w1)).
Proof.
  intros Hin Hu.
  split; [|split; [|split; [|split; [|split; [|split]]]]].
  - intros w0. unfold format_bounty, extract_github_repo, bind. now rewrite Hu.
  - destruct (handle_spec E opts db w) as (items & warns & HP & H). cbv zeta in H.
    rewrite (all_ok_false_of_no_url _ _ b Hin Hu) in H. now rewrite H.
  - destruct (handle_spec E opts db w) as (items & warns & HP & H). cbv zeta in H.
    rewrite (all_ok_false_of_no_url _ _ b Hin Hu) in H. rewrite H.
    exists (map row_of items), warns. cbn [snd].
    now rewrite (warnings_no_mail _ HP), (warnings_no_upload _ HP).
  - intros b' w0. pose proof (format_bounty_describes b' w0) as Hd.
    pose proof (format_bounty_ok b') as Hok. unfold is_ok in Hok.
    destruct (outcome_of (format_bounty b')) as [[r|e] evs]; cbn [fst snd] in *.
    + split; [|eauto]. intros _. destruct (Bounty.github_url b'); [eauto | discriminate].
    + split.
      * intros (r & w1 & Hr). congruence.
      * intros (u & Hu'). rewrite Hu' in Hok. discriminate.
  - intros b' u w0 Hu'. unfold format_bounty, bind. rewrite Hu'.
    unfold extract_github_repo.
    destruct (search GITHUB_REPO_PATTERN u); eexists; split; reflexivity.
  - intros t w0 Ht. unfold format_tip, bind. rewrite Ht. eexists; split; reflexivity.
  - intros t w0. pose proof (format_tip_describes t w0) as Hd.
    pose proof (format_tip_ok t) as Hok. unfold is_ok in Hok.
    destruct (outcome_of (format_tip t)) as [[r|e] evs]; cbn [fst snd] in *; [eauto | discriminate].
Qed.

(** * The document of a run in which every bounty has a URL *)

Lemma formatted_bounty_value b r :
  fst (outcome_of (format_bounty b)) = Returns r ->
  ActivityRecord.created_on r = Bounty.web3_created b /\ ActivityRecord.type r = "bounty".
Proof.
  destruct (Bounty.github_url b) as [u|] eqn:Hu; run_format Hu; intros [= <-]; auto.
Qed.

Lemma formatted_tip_value t r :
  fst (outcome_of (format_tip t)) = Returns r ->
  ActivityRecord.created_on r = Tip.created_on t /\ ActivityRecord.type r = "tip".
Proof.
  destruct (Tip.github_url t) as [[|c u]|] eqn:Hu; run_format Hu; intros [= <-]; auto.
Qed.

Lemma values_cons {X} (d : outcome X * list event) ds :
  values (d :: ds) = (match fst d with Returns v => [v] | Raises _ => [] end ++ values ds)%list.
Proof. reflexivity. Qed.

Lemma values_length_ok {X} (ds : list (outcome X * list event)) :
  forallb is_ok ds = true -> List.length (values ds) = List.length ds.
Proof.
  induction ds as [|d ds IH]; [reflexivity|]. cbn [forallb]. rewrite andb_true_iff.
  intros [Hd Hds]. rewrite values_cons. unfold is_ok in Hd.
  destruct (fst d); [|discriminate]. cbn. now rewrite IH.
Qed.

Lemma values_bounties_In v bs :
  In v (values (bounty_outcomes bs)) ->
  exists b, In b bs /\ ActivityRecord.created_on v = Bounty.web3_created b
            /\ ActivityRecord.type v = "bounty".
Proof.
  induction bs as [|b bs IH]; [intros []|].
  unfold bounty_outcomes. cbn [map]. rewrite values_cons. intros Hin.
  apply in_app_or in Hin. destruct Hin as [Hin|Hin].
  - destruct (fst (outcome_of (format_bounty b))) as [r|e] eqn:Hr; [|destruct Hin].
    destruct Hin as [<-|[]]. apply formatted_bounty_value in Hr. exists b. cbn. tauto.
  - destruct (IH Hin) as (b' & Hb' & H). exists b'. cbn. tauto.
Qed.

Lemma values_tips_In v ts :
  In v (values (tip_outcomes ts)) ->
  exists t, In t ts /\ ActivityRecord.created_on v = Tip.created_on t
            /\ ActivityRecord.type v = "tip".
Proof.
  induction ts as [|t ts IH]; [intros []|].
  unfold tip_outcomes. cbn [map]. rewrite values_cons. intros Hin.
  apply in_app_or in Hin. destruct Hin as [Hin|Hin].
  - destruct (fst (outcome_of (format_tip t))) as [r|e] eqn:Hr; [|destruct Hin].
    destruct Hin as [<-|[]]. apply formatted_tip_value in Hr. exists t. cbn. tauto.
  - destruct (IH Hin) as (t' & Ht' & H). exists t'. cbn. tauto.
Qed.

Lemma values_bounties_sorted bs :
  StronglySorted bounty_before bs -> sorted_by created_on_key (values (bounty_outcomes bs)).
Proof.
  intros Hs. apply StronglySorted_Sorted.
  induction Hs as [|b bs Hs IH Hall]; [constructor|].
  unfold bounty_outcomes. cbn [map]. rewrite values_cons.
  destruct (fst (outcome_of (format_bounty b))) as [r|e] eqn:Hr; [|exact IH].
  cbn. constructor; [exact IH|]. apply Forall_forall. intros v Hv.
  apply values_bounties_In in Hv. destruct Hv as (b' & Hb' & Hc & _).
  apply formatted_bounty_value in Hr. destruct Hr as [Hr _].
  rewrite Forall_forall in Hall. specialize (Hall b' Hb').
  unfold created_on_key, bounty_before in *. lia.
Qed.

Lemma values_tips_sorted ts :
  StronglySorted tip_before ts -> sorted_by created_on_key (values (tip_outcomes ts)).
Proof.
  intros Hs. apply StronglySorted_Sorted.
  induction Hs as [|t ts Hs IH Hall]; [constructor|].
  unfold tip_outcomes. cbn [map]. rewrite values_cons.
  destruct (fst (outcome_of (format_tip t))) as [r|e] eqn:Hr; [|exact IH].
  cbn. constructor; [exact IH|]. apply Forall_forall. intros v Hv.
  apply values_tips_In in Hv. destruct Hv as (t' & Ht' & Hc & _).
  apply formatted_tip_value in Hr. destruct Hr as [Hr _].
  rewrite Forall_forall in Hall. specialize (Hall t' Ht').
  unfold created_on_key, tip_before in *. lia.
Qed.

(** X3.  When every bounty of the range has a URL, the loop writes the whole
    document, however the run ends afterwards: the data rows are in ascending
    created_on order, one row per queried bounty and tip, with a bounty
    before a tip of the same created_on (itermerge as the spec describes
    it), and the run does not end in a TypeError. *)
Theorem handle_document_sorted (E : env) (opts : options) (db : database) (w : world) :
  (forall b, In b (query_bounties db (start_date opts) (end_date opts)) ->
             Bounty.github_url b <> None) ->
  exists items,
    csvfile (snd (handle E opts db w)) = header_row :: map row_of items
    /\ fst (handle E opts db w) <> Raises TypeError
    /\ sorted_by created_on_key items
    /\ List.length items
       = (List.length (query_bounties db (start_date opts) (end_date opts))
          + List.length (query_tips db (start_date opts) (end_date opts)))%nat
    /\ (forall l1 b l3 a, items = (l1 ++ b :: l3)%list ->
                          ActivityRecord.type b = "tip" ->
                          In a l3 -> ActivityRecord.type a = "bounty" ->
                          ActivityRecord.created_on b < ActivityRecord.created_on a).
Proof.
  intros Hurl.
  destruct (handle_spec E opts db w) as (items & warns & HP & H). cbv zeta in H.
  set (bs := query_bounties db (start_date opts) (end_date opts)) in *.
  set (ts := query_tips db (start_date opts) (end_date opts)) in *.
  assert (Hoa : forallb is_ok (bounty_outcomes bs) = true).
  { apply forallb_forall. intros d Hd. unfold bounty_outcomes in Hd.
    apply in_map_iff in Hd. destruct Hd as (b & <- & Hb). rewrite format_bounty_ok.
    specialize (Hurl b Hb). now destruct (Bounty.github_url b). }
  assert (Hob : forallb is_ok (tip_outcomes ts) = true).
  { apply forallb_forall. intros d Hd. unfold tip_outcomes in Hd.
    apply in_map_iff in Hd. destruct Hd as (t & <- & Ht). apply format_tip_ok. }
  unfold all_ok in H. rewrite Hoa, Hob in H. cbn [andb] in H. destruct H as [Hi H].
  pose proof (values_bounties_sorted bs (query_bounties_sorted db _ _)) as Hsa.
  pose proof (values_tips_sorted ts (query_tips_sorted db _ _)) as Hsb.
  exists items. rewrite H. cbn [fst snd csvfile].
  split; [reflexivity|]. split.
  { destruct (report_cases E opts (header_row :: map row_of items))
      as [Hr|[Hr|(start & end_ & _ & _ & [[_ Hr]|(_ & _ & [Hr|(url & _ & [[_ Hr]|[_ Hr]])])])]];
      rewrite Hr; discriminate. }
  subst items. split; [|split].
  - now apply merged_sorted.
  - rewrite merged_length, !values_length_ok by assumption.
    unfold bounty_outcomes, tip_outcomes. now rewrite !length_map.
  - intros l1 b l3 a Hm Tb Hin Ta.
    apply (merged_tie created_on_key is_bounty _ _ Hsa Hsb) with (pre := l1) (post := l3); auto.
    + apply Forall_forall. intros v Hv. apply values_bounties_In in Hv.
      destruct Hv as (_ & _ & _ & Hv). unfold is_bounty. now rewrite Hv.
    + apply Forall_forall. intros v Hv. apply values_tips_In in Hv.
      destruct Hv as (_ & _ & _ & Hv). unfold is_bounty. now rewrite Hv.
    + unfold is_bounty. now rewrite Tb.
    + unfold is_bounty. now rewrite Ta.
Qed.

(** * The statements at concrete inputs *)

Lemma itermerge_sorted_permutation_witness :
  sorted_by created_on_key Sample.S1 /\ sorted_by created_on_key Sample.S2
  /\ exists out,
       to_list created_on_key (itermerge (iter Sample.S1) (iter Sample.S2)) empty_world
       = (Returns out, empty_world)
       /\ sorted_by created_on_key out
       /\ Permutation out (Sample.S1 ++ Sample.S2)
       /\ List.length out = (List.length Sample.S1 + List.length Sample.S2)%nat.
Proof.
  assert (H1 : sorted_by created_on_key Sample.S1)
    by (repeat constructor; vm_compute; discriminate).
  assert (H2 : sorted_by created_on_key Sample.S2)
    by (repeat constructor; vm_compute; discriminate).
  split; [exact H1|]. split; [exact H2|].
  exact (itermerge_sorted_permutation Sample.S1 Sample.S2 empty_world H1 H2).
Defined.

Lemma itermerge_tie_break_witness :
  exists out,
    to_list created_on_key (itermerge (iter Sample.S1) (iter Sample.S2)) empty_world
    = (Returns out, empty_world)
    /\ (forall a b, In a Sample.S1 -> In b Sample.S2 ->
                    ActivityRecord.created_on a = ActivityRecord.created_on b ->
                    exists l1 l2 l3, out = (l1 ++ a :: l2 ++ b :: l3)%list)
    /\ (forall l1 b l3 a, out = (l1 ++ b :: l3)%list ->
                          ActivityRecord.type b = "tip" ->
                          In a l3 -> ActivityRecord.type a = "bounty" ->
                          ActivityRecord.created_on b < ActivityRecord.created_on a).
Proof.
  apply (itermerge_tie_break Sample.S1 Sample.S2 empty_world).
  - repeat constructor; vm_compute; discriminate.
  - repeat constructor; vm_compute; discriminate.
  - repeat constructor.
  - repeat constructor.
Defined.



Lemma malformed_date_is_usage_error_witness :
  exists name v,
    (name = "start_date" /\ v = "2018/01/01" \/ name = "end_date" /\ v = "2018-01-31")
    /\ strptime Reference.E v DATE_FORMAT = None
    /\ run_command Reference.E ["2018/01/01"; "2018-01-31"] Sample.db_A empty_world
       = (Raises (date_error name v), empty_world).
Proof.
  apply (malformed_date_is_usage_error Reference.E "2018/01/01" "2018-01-31"
           Sample.db_A empty_world).
  right. reflexivity.
Defined.

Lemma bounty_without_url_aborts_witness :
  fst (handle Reference.E Sample.january Sample.db_abort empty_world) = Raises TypeError.
Proof.
  apply (bounty_without_url_aborts Reference.E Sample.january Sample.db_abort empty_world
           Sample.bounty_no_url).
  - vm_compute. right. left. reflexivity.
  - reflexivity.
Defined.

(** Two runs over [Sample.db_A] that write data rows and send no mail: the
    range 1899/01/01 to 2018/01/31, which the parser accepts, where the run
    stops with the ValueError of strftime after the loop; and January 2018
    with a mail transport that fails, where the run stops in send_mail after
    the upload. *)
Lemma mail_iff_rows_counterexample :
  run_command Reference.E ["1899/01/01"; "2018/01/31"] Sample.db_A empty_world
  = handle Reference.E Sample.since_1899 Sample.db_A empty_world
  /\ ~ (mail_sent (snd (handle Reference.E Sample.since_1899 Sample.db_A empty_world))
        <-> data_rows (snd (handle Reference.E Sample.since_1899 Sample.db_A empty_world))
            <> [])
  /\ ~ (mail_sent (snd (handle Reference.E_mail_down Sample.january Sample.db_A empty_world))
        <-> data_rows (snd (handle Reference.E_mail_down Sample.january Sample.db_A
                              empty_world)) <> []).
Proof.
  split; [vm_compute; reflexivity|]. split.
  - intros [_ Hback].
    assert (Hrows : data_rows (snd (handle Reference.E Sample.since_1899 Sample.db_A
                                      empty_world)) <> []) by (vm_compute; discriminate).
    destruct (Hback Hrows) as (ev & Hin & Hm).
    vm_compute in Hin.
    repeat (destruct Hin as [<-|Hin]; [discriminate Hm|]). exact Hin.
  - intros [_ Hback].
    assert (Hrows : data_rows (snd (handle Reference.E_mail_down Sample.january Sample.db_A
                                      empty_world)) <> []) by (vm_compute; discriminate).
    destruct (Hback Hrows) as (ev & Hin & Hm).
    vm_compute in Hin.
    repeat (destruct Hin as [<-|Hin]; [discriminate Hm|]). exact Hin.
Qed.

(** * More on the pattern, the queries and the runs *)

(** * More on the pattern *)

Lemma search_skip (pre s : string) :
  free_of "g" pre = true ->
  search GITHUB_REPO_PATTERN (pre ++ s) = search GITHUB_REPO_PATTERN s.
Proof.
  induction pre as [|x pre IH]; [reflexivity|].
  cbn [free_of]. rewrite andb_true_iff, negb_true_iff. intros [Hx Hpre].
  cbn [append search].
  assert (Hm : match_here GITHUB_REPO_PATTERN "" (String x (pre ++ s)) = None).
  { unfold GITHUB_REPO_PATTERN. cbn [lit app match_here]. unfold atom_matches. now rewrite Hx. }
  rewrite Hm. now apply IH.
Qed.

Lemma search_at_start s g :
  github_match_at s g -> search GITHUB_REPO_PATTERN s = Some g.
Proof.
  intros H. apply match_here_iff in H. destruct s; cbn [search]; now rewrite H.
Qed.

(** X1.  A URL that has no "g" before "github", then any character but a
    newline where the dot is, "com/", an owner and a name of [[\w-]]
    characters, and then nothing or a character outside [[\w-]]: the
    function returns the name and writes nothing. *)
Theorem extract_github_repo_well_formed (pre owner name rest : string) (c : ascii)
    (w : world) :
  free_of "g" pre = true ->
  c <> newline ->
  owner <> "" -> all_word_dash owner = true ->
  name <> "" -> all_word_dash name = true ->
  starts_word_dash rest = false ->
  extract_github_repo
    (Some (pre ++ "github" ++ String c ("com/" ++ owner ++ "/" ++ name ++ rest))) w
  = (Returns name, w).
Proof.
  intros Hpre Hc Ho Hao Hn Han Hrest. unfold extract_github_repo.
  rewrite search_skip by exact Hpre.
  rewrite (search_at_start _ name); [reflexivity|].
  exists c, owner, rest. repeat split; auto.
Qed.

Lemma all_word_dash_app a b :
  all_word_dash (a ++ b) = (all_word_dash a && all_word_dash b)%bool.
Proof.
  induction a as [|x a IH]; [reflexivity|]. cbn [append all_word_dash].
  now rewrite IH, andb_assoc.
Qed.

Lemma github_match_at_not_word_dash s g : github_match_at s g -> all_word_dash s = false.
Proof.
  intros (c & owner & rest & -> & _).
  cbn [append all_word_dash].
  destruct (atom_matches WordDash c); [|now rewrite !andb_false_r].
  vm_compute. reflexivity.
Qed.

(** A string of [[\w-]] characters has no match. *)
Lemma word_dash_no_match g : all_word_dash g = true -> search GITHUB_REPO_PATTERN g = None.
Proof.
  intros Hg. pose proof (search_spec g) as H.
  destruct (search GITHUB_REPO_PATTERN g) as [g'|]; [|reflexivity].
  destruct H as (pre & s & -> & Hat & _).
  rewrite all_word_dash_app, andb_true_iff in Hg. destruct Hg as [_ Hs].
  apply github_match_at_not_word_dash in Hat. congruence.
Qed.

(** X2.  What extract_github_repo returns is never itself matched by the
    pattern: given back to the function it is returned unchanged, with the
    warning. *)
Theorem extract_github_repo_again (url : string) (w : world) :
  exists r w',
    extract_github_repo (Some url) w = (Returns r, w')
    /\ extract_github_repo (Some r) w' = (Returns r, after w' [malformed_warning r]).
Proof.
  unfold extract_github_repo. pose proof (search_spec url) as H.
  destruct (search GITHUB_REPO_PATTERN url) as [g|] eqn:Hs.
  - destruct H as (pre & s & _ & (c & owner & rest & _ & _ & _ & _ & _ & Hg & _) & _).
    exists g, w. split; [reflexivity|]. now rewrite (word_dash_no_match g Hg).
  - exists url, (after w [malformed_warning url]). split; [reflexivity|]. now rewrite Hs.
Qed.

(** * More on the store queries *)

Lemma filter_none {X} (f : X -> bool) l : (forall x, f x = false) -> filter f l = [].
Proof. intros H. induction l as [|x l IH]; cbn; [reflexivity|]. now rewrite H. Qed.

(** X5.  A range whose end is before its start is no error of the parser
    or of the queries: both queries are empty, and when strftime formats the
    two dates the run completes with the no-activity message. *)
Theorem reversed_range_is_no_activity (E : env) (opts : options) (db : database) (w : world) :
  end_date opts < start_date opts ->
  query_bounties db (start_date opts) (end_date opts) = []
  /\ query_tips db (start_date opts) (end_date opts) = []
  /\ forall start end_,
       strftime E (start_date opts) DATE_FORMAT_HYPHENATED = Some start ->
       strftime E (end_date opts) DATE_FORMAT_HYPHENATED = Some end_ ->
       handle E opts db w
       = (Returns tt,
          World [header_row] (trace w ++ queries ++ [no_activity_message start end_])).
Proof.
  intros Hrev.
  assert (Hb : query_bounties db (start_date opts) (end_date opts) = []).
  { unfold query_bounties. rewrite filter_none; [reflexivity|].
    intros b. unfold bounty_filter.
    destruct (start_date opts <=? Bounty.web3_created b) eqn:H1;
      destruct (Bounty.web3_created b <=? end_date opts) eqn:H2;
      rewrite ?andb_false_r; try reflexivity. lia. }
  assert (Ht : query_tips db (start_date opts) (end_date opts) = []).
  { unfold query_tips. rewrite filter_none; [reflexivity|].
    intros t. unfold tip_filter.
    destruct (start_date opts <=? Tip.created_on t) eqn:H1;
      destruct (Tip.created_on t <=? end_date opts) eqn:H2;
      rewrite ?andb_false_r; try reflexivity. lia. }
  split; [exact Hb|]. split; [exact Ht|].
  intros start end_ Hs He. rewrite (handle_no_records E opts db w Hb Ht).
  unfold report, hyphenated. now rewrite Hs, He.
Qed.

Lemma filter_perm {X} (f : X -> bool) l1 l2 :
  Permutation l1 l2 -> Permutation (filter f l1) (filter f l2).
Proof.
  induction 1 as [|x l1 l2 _ IH|x y l|l1 l2 l3 _ IH1 _ IH2]; cbn.
  - constructor.
  - destruct (f x); [now constructor | exact IH].
  - destruct (f x), (f y); try reflexivity. apply perm_swap.
  - now transitivity (filter f l2).
Qed.

(** Two lists in the same strict order with the same elements are equal. *)
Lemma sorted_perm_unique {X} (R : X -> X -> Prop) (l1 : list X) :
  forall l2,
    StronglySorted R l1 -> StronglySorted R l2 -> Permutation l1 l2 ->
    (forall x y, In x l1 -> In y l1 -> R x y -> R y x -> x = y) ->
    l1 = l2.
Proof.
  induction l1 as [|a l1 IH]; intros l2 H1 H2 Hp Hanti.
  - apply Permutation_nil in Hp. now subst.
  - destruct l2 as [|b l2]; [apply Permutation_sym, Permutation_nil in Hp; discriminate|].
    inversion H1 as [|? ? H1' Ha]; subst. inversion H2 as [|? ? H2' Hb]; subst.
    assert (a = b) as <-.
    { assert (Hin : In a (b :: l2)) by (apply (Permutation_in _ Hp); now left).
      assert (Hin' : In b (a :: l1))
        by (apply (Permutation_in _ (Permutation_sym Hp)); now left).
      destruct Hin as [<-|Hin]; [reflexivity|].
      destruct Hin' as [<-|Hin']; [reflexivity|].
      rewrite Forall_forall in Ha, Hb.
      apply Hanti; [now left | now right | now apply Ha | now apply Hb]. }
    f_equal. apply IH; auto.
    + now apply Permutation_cons_inv in Hp.
    + intros x y Hx Hy. apply Hanti; now right.
Qed.

Lemma nodup_map_injective {X Y} (f : X -> Y) (l : list X) x y :
  NoDup (map f l) -> In x l -> In y l -> f x = f y -> x = y.
Proof.
  induction l as [|a l IH]; [intros _ []|]. cbn [map]. intros Hnd Hx Hy Hf.
  inversion Hnd as [|? ? Hnotin Hnd']; subst.
  destruct Hx as [<-|Hx], Hy as [<-|Hy]; auto.
  - exfalso. apply Hnotin. rewrite Hf. now apply in_map.
  - exfalso. apply Hnotin. rewrite <- Hf. now apply in_map.
Qed.

(** X6.  When the ids of a table are distinct, the result of a query does
    not depend on the order of the rows in the table. *)
Theorem queries_ignore_table_order (db db' : database) (start_date end_date : datetime) :
  Permutation (bounty_table db) (bounty_table db') ->
  Permutation (tip_table db) (tip_table db') ->
  NoDup (map Bounty.id (bounty_table db)) ->
  NoDup (map Tip.id (tip_table db)) ->
  query_bounties db start_date end_date = query_bounties db' start_date end_date
  /\ query_tips db start_date end_date = query_tips db' start_date end_date.
Proof.
  intros Pb Pt Nb Nt. split.
  - apply (sorted_perm_unique bounty_before).
    + apply query_bounties_sorted.
    + apply query_bounties_sorted.
    + unfold query_bounties. rewrite !order_by_perm. now apply filter_perm.
    + intros x y Hx Hy Hxy Hyx. apply query_bounties_In in Hx, Hy.
      apply (nodup_map_injective Bounty.id (bounty_table db)); try tauto.
      unfold bounty_before in *. lia.
  - apply (sorted_perm_unique tip_before).
    + apply query_tips_sorted.
    + apply query_tips_sorted.
    + unfold query_tips. rewrite !order_by_perm. now apply filter_perm.
    + intros x y Hx Hy Hxy Hyx. apply query_tips_In in Hx, Hy.
      apply (nodup_map_injective Tip.id (tip_table db)); try tauto.
      unfold tip_before in *. lia.
Qed.

(** * Invocations that do nothing *)

(** X10.  Unless the values for the positional arguments are exactly two
    strings that strptime both accepts, the invocation ends in a usage error
    and the world is as it was: none, one, or more than two values, or a
    value that is no date. *)
Theorem invocation_needs_two_dates (E : env) (values : list string) (db : database)
    (w : world) :
  (forall s e a b, values = [s; e] ->
                   strptime E s DATE_FORMAT = Some a -> strptime E e DATE_FORMAT = Some b -> False) ->
  exists msg, run_command E values db w = (Raises (UsageError msg), w).
Proof.
  intros H. unfold run_command, parse_positionals, parse_argument, valid_date, bind.
  destruct values as [|s [|e rest]]; [eexists; reflexivity | |].
  - destruct (strptime E s DATE_FORMAT) as [a|]; eexists; reflexivity.
  - destruct (strptime E s DATE_FORMAT) as [a|] eqn:Hs; [|eexists; reflexivity].
    destruct (strptime E e DATE_FORMAT) as [b|] eqn:He; [|eexists; reflexivity].
    destruct rest as [|x rest]; [|eexists; reflexivity].
    exfalso. exact (H s e a b eq_refl Hs He).
Qed.

(** * More on the runs of handle *)









(** * Each input keeps its order in the merge *)

Lemma filter_all {X} (p : X -> bool) l : Forall (fun x => p x = true) l -> filter p l = l.
Proof. induction 1 as [|x l Hx _ IH]; cbn; [reflexivity|]. now rewrite Hx, IH. Qed.

Lemma filter_nothing {X} (p : X -> bool) l : Forall (fun x => p x = false) l -> filter p l = [].
Proof. induction 1 as [|x l Hx _ IH]; cbn; [reflexivity|]. now rewrite Hx. Qed.

Lemma merged_filter {X} (key : X -> Z) (p : X -> bool) (l1 : list X) :
  forall l2,
    Forall (fun x => p x = true) l1 -> Forall (fun y => p y = false) l2 ->
    filter p (merged key l1 l2) = l1
    /\ filter (fun x => negb (p x)) (merged key l1 l2) = l2.
Proof.
  induction l1 as [|a l1 IH1]; intros l2 P1 P2.
  - rewrite merged_nil_l. split; [now apply filter_nothing|].
    apply filter_all. eapply Forall_impl; [|exact P2]. intros y Hy. cbn. now rewrite Hy.
  - induction l2 as [|b l2 IH2].
    + rewrite merged_nil_r. split; [now apply filter_all|].
      apply filter_nothing. eapply Forall_impl; [|exact P1]. intros y Hy. cbn. now rewrite Hy.
    + rewrite merged_cons. inversion P1 as [|? ? Ha P1']; inversion P2 as [|? ? Hb P2']; subst.
      destruct (key a <=? key b).
      * cbn [filter]. rewrite Ha. cbn [negb].
        destruct (IH1 (b :: l2) P1' P2) as [-> ->]. auto.
      * cbn [filter]. rewrite Hb. cbn [negb].
        destruct (IH2 P2') as [-> ->]. auto.
Qed.

Lemma bounty_values_of bs :
  forallb is_ok (bounty_outcomes bs) = true ->
  Forall2 (fun b r => forall w0, fst (format_bounty b w0) = Returns r)
          bs (values (bounty_outcomes bs)).
Proof.
  induction bs as [|b bs IH]; [constructor|].
  unfold bounty_outcomes. cbn [map forallb]. rewrite andb_true_iff. intros [Hb Hbs].
  rewrite values_cons. unfold is_ok in Hb.
  destruct (fst (outcome_of (format_bounty b))) as [r|e] eqn:Hr; [|discriminate].
  cbn [app]. constructor; [|now apply IH].
  intros w0. now rewrite (format_bounty_describes b w0).
Qed.

Lemma tip_values_of ts :
  Forall2 (fun t r => forall w0, fst (format_tip t w0) = Returns r)
          ts (values (tip_outcomes ts)).
Proof.
  induction ts as [|t ts IH]; [constructor|].
  unfold tip_outcomes. cbn [map]. rewrite values_cons.
  pose proof (format_tip_ok t) as Hok. unfold is_ok in Hok.
  destruct (fst (outcome_of (format_tip t))) as [r|e] eqn:Hr; [|discriminate].
  cbn [app]. constructor; [|exact IH].
  intros w0. now rewrite (format_tip_describes t w0).
Qed.

(** X4.  In a run that completes, the rows of type bounty are the
    formatted bounties of the query, one for one and in the order of the
    query, and the other rows are the formatted tips in the order of their
    query. *)
Theorem handle_keeps_query_order (E : env) (opts : options) (db : database) (w : world) :
  fst (handle E opts db w) = Returns tt ->
  exists items,
    csvfile (snd (handle E opts db w)) = header_row :: map row_of items
    /\ Forall2 (fun b r => forall w0, fst (format_bounty b w0) = Returns r)
               (query_bounties db (start_date opts) (end_date opts))
               (filter is_bounty items)
    /\ Forall2 (fun t r => forall w0, fst (format_tip t w0) = Returns r)
               (query_tips db (start_date opts) (end_date opts))
               (filter (fun r => negb (is_bounty r)) items).
Proof.
  intros Hret.
  destruct (handle_spec E opts db w) as (items & warns & _ & H). cbv zeta in H.
  set (bs := query_bounties db (start_date opts) (end_date opts)) in *.
  set (ts := query_tips db (start_date opts) (end_date opts)) in *.
  destruct (all_ok (bounty_outcomes bs) (tip_outcomes ts)) eqn:Hok;
    [|rewrite H in Hret; discriminate].
  destruct H as [Hi H]. exists items. rewrite H. split; [reflexivity|].
  unfold all_ok in Hok. apply andb_true_iff in Hok. destruct Hok as [Hoa _].
  destruct (merged_filter created_on_key is_bounty
              (values (bounty_outcomes bs)) (values (tip_outcomes ts))) as [Hf1 Hf2].
  - apply Forall_forall. intros v Hv. apply values_bounties_In in Hv.
    destruct Hv as (_ & _ & _ & Hv). unfold is_bounty. now rewrite Hv.
  - apply Forall_forall. intros v Hv. apply values_tips_In in Hv.
    destruct Hv as (_ & _ & _ & Hv). unfold is_bounty. now rewrite Hv.
  - rewrite Hi, Hf1, Hf2. split; [now apply bounty_values_of | apply tip_values_of].
Qed.

(** * The shape of a capture *)

Lemma append_cons_neq {X} (l : list X) (x : X) : (l ++ [x])%list <> l.
Proof.
  intros H. apply (f_equal (@List.length X)) in H. rewrite length_app in H. cbn in H. lia.
Qed.

(** X13.  A value that extract_github_repo returns without a warning is
    not empty, consists of [[\w-]] characters, follows a slash in the URL,
    and is followed there by nothing or by a character outside [[\w-]]. *)
Theorem extract_github_repo_capture_shape (url r : string) (w : world) :
  extract_github_repo (Some url) w = (Returns r, w) ->
  r <> "" /\ all_word_dash r = true
  /\ exists p q, url = p ++ "/" ++ r ++ q /\ starts_word_dash q = false.
Proof.
  unfold extract_github_repo. pose proof (search_spec url) as H.
  destruct (search GITHUB_REPO_PATTERN url) as [g|].
  - intros [= <-].
    destruct H as (pre & s & -> & (c & owner & rest & -> & _ & _ & _ & Hg & Hag & Hrest) & _).
    split; [exact Hg|]. split; [exact Hag|].
    exists (pre ++ "github" ++ String c ("com/" ++ owner)), rest. split; [|exact Hrest].
    rewrite append_assoc. cbn [append]. rewrite ?append_assoc. reflexivity.
  - cbn. intros [= _ Ht]. destruct w as [rows tr]. cbn in Ht.
    injection Ht as Ht. now apply append_cons_neq in Ht.
Qed.

(** * More statements at concrete inputs *)

Lemma extract_github_repo_well_formed_witness :
  extract_github_repo (Some "https://github.com/gitcoinco/web/issues/1") empty_world
  = (Returns "web", empty_world).
Proof.
  apply (extract_github_repo_well_formed "https://" "gitcoinco" "web" "/issues/1" "."
           empty_world); try reflexivity; discriminate.
Defined.

Lemma extract_github_repo_capture_shape_witness :
  "web" <> "" /\ all_word_dash "web" = true
  /\ exists p q, "https://github.com/gitcoinco/web" = p ++ "/" ++ "web" ++ q
                 /\ starts_word_dash q = false.
Proof.
  apply (extract_github_repo_capture_shape "https://github.com/gitcoinco/web" "web"
           empty_world).
  reflexivity.
Defined.

Lemma handle_document_sorted_witness :
  exists items,
    csvfile (snd (handle Reference.E Sample.january Sample.db_A empty_world))
    = header_row :: map row_of items
    /\ fst (handle Reference.E Sample.january Sample.db_A empty_world) <> Raises TypeError
    /\ sorted_by created_on_key items
    /\ List.length items
       = (List.length (query_bounties Sample.db_A (start_date Sample.january)
                         (end_date Sample.january))
          + List.length (query_tips Sample.db_A (start_date Sample.january)
                           (end_date Sample.january)))%nat
    /\ (forall l1 b l3 a, items = (l1 ++ b :: l3)%list ->
                          ActivityRecord.type b = "tip" ->
                          In a l3 -> ActivityRecord.type a = "bounty" ->
                          ActivityRecord.created_on b < ActivityRecord.created_on a).
Proof.
  apply (handle_document_sorted Reference.E Sample.january Sample.db_A empty_world).
  intros b Hb. vm_compute in Hb. destruct Hb as [<-|[]]. discriminate.
Defined.

Lemma handle_keeps_query_order_witness :
  exists items,
    csvfile (snd (handle Reference.E Sample.january Sample.db_A empty_world))
    = header_row :: map row_of items
    /\ Forall2 (fun b r => forall w0, fst (format_bounty b w0) = Returns r)
               (query_bounties Sample.db_A (start_date Sample.january)
                  (end_date Sample.january))
               (filter is_bounty items)
    /\ Forall2 (fun t r => forall w0, fst (format_tip t w0) = Returns r)
               (query_tips Sample.db_A (start_date Sample.january) (end_date Sample.january))
               (filter (fun r => negb (is_bounty r)) items).
Proof.
  apply (handle_keeps_query_order Reference.E Sample.january Sample.db_A empty_world).
  reflexivity.
Defined.

Lemma reversed_range_is_no_activity_witness :
  handle Reference.E reversed_january Sample.db_A empty_world
  = (Returns tt,
     World [header_row]
           (trace empty_world ++ queries ++ [no_activity_message "2018-01-31" "2018-01-01"])).
Proof.
  apply (reversed_range_is_no_activity Reference.E reversed_january Sample.db_A empty_world);
    reflexivity.
Defined.

Lemma queries_ignore_table_order_witness :
  query_bounties Sample.db_A (start_date Sample.january) (end_date Sample.january)
  = query_bounties db_A_reversed (start_date Sample.january) (end_date Sample.january)
  /\ query_tips Sample.db_A (start_date Sample.january) (end_date Sample.january)
     = query_tips db_A_reversed (start_date Sample.january) (end_date Sample.january).
Proof.
  apply (queries_ignore_table_order Sample.db_A db_A_reversed).
  - apply Permutation_rev.
  - apply Permutation_rev.
  - repeat constructor; cbn; intuition discriminate.
  - repeat constructor; cbn; intuition discriminate.
Defined.

Lemma invocation_needs_two_dates_witness :
  exists msg,
    run_command Reference.E ["2018/01/01"; "2018/01/31"; "2018/02/01"] Sample.db_A empty_world
    = (Raises (UsageError msg), empty_world).
Proof.
  apply (invocation_needs_two_dates Reference.E ["2018/01/01"; "2018/01/31"; "2018/02/01"]
           Sample.db_A empty_world).
  intros s e a b Hvalues. discriminate Hvalues.
Defined.
